(** * Kitchen inventory: spoilage engine and stock-mutation actions

    A shallow embedding of [src/engines/spoilage.ts],
    [src/actions/buyIngredient.ts] and the CRUD module
    ([actions/ingredientCrud]) over an explicit model of the JavaScript
    values they manipulate: numbers with their non-finite members, [Date]
    objects with their range, and the Dexie table behind [db.ingredients]. *)

From Stdlib Require Import ZArith QArith Qround Lia Lqa String Ascii List Permutation Sorted.
From stdpp Require Import base option gmap strings list.
From stdpp Require Import sorting.

Local Open Scope Z_scope.

(** ** JavaScript numbers

    A [number] is a finite value or one of [NaN], [+Infinity], [-Infinity].
    Finite values are kept as exact rationals: the comparisons, the
    non-finite cases and the integer roundings of the source are modelled,
    the rounding of binary64 arithmetic is not (nor is the sign of zero,
    which no comparison of the source observes). *)

Module Num.

Inductive num : Type :=
| NaN
| PInf
| NInf
| Fin (q : Q).

Definition of_Z (z : Z) : num := Fin (inject_Z z).

Definition zero : num := of_Z 0.

(** [Number.isFinite(x)] *)
Definition isFinite (x : num) : bool :=
  match x with Fin _ => true | _ => false end.

(** [isNaN(x)] on a number *)
Definition isNaN (x : num) : bool :=
  match x with NaN => true | _ => false end.

Definition Qltb (a b : Q) : bool := negb (Qle_bool b a).

(** [x < y]: false as soon as one side is [NaN] *)
Definition ltb (x y : num) : bool :=
  match x, y with
  | NaN, _ | _, NaN => false
  | Fin a, Fin b => Qltb a b
  | NInf, NInf => false
  | NInf, _ => true
  | _, NInf => false
  | PInf, _ => false
  | Fin _, PInf => true
  end.

(** [x <= y] *)
Definition leb (x y : num) : bool :=
  match x, y with
  | NaN, _ | _, NaN => false
  | Fin a, Fin b => Qle_bool a b
  | NInf, _ => true
  | _, NInf => false
  | _, PInf => true
  | PInf, Fin _ => false
  end.

(** [x > y] is [y < x] *)
Definition gtb (x y : num) : bool := ltb y x.

(** [x + y] *)
Definition add (x y : num) : num :=
  match x, y with
  | NaN, _ | _, NaN => NaN
  | PInf, NInf | NInf, PInf => NaN
  | PInf, _ | _, PInf => PInf
  | NInf, _ | _, NInf => NInf
  | Fin a, Fin b => Fin (a + b)
  end.

(** [x - y] *)
Definition sub (x y : num) : num :=
  match x, y with
  | NaN, _ | _, NaN => NaN
  | PInf, PInf | NInf, NInf => NaN
  | PInf, _ | _, NInf => PInf
  | NInf, _ | _, PInf => NInf
  | Fin a, Fin b => Fin (a - b)
  end.

(** [x / y] for a finite, strictly positive divisor (the only use in the
    source is the constant [msPerDay]); other divisors give [NaN] here. *)
Definition div_pos (x y : num) : num :=
  match y with
  | Fin b =>
      if Qltb 0 b then
        match x with
        | Fin a => Fin (a / b)
        | other => other
        end
      else NaN
  | _ => NaN
  end.

(** [Math.ceil(x)] *)
Definition ceil (x : num) : num :=
  match x with
  | Fin a => of_Z (Qceiling a)
  | other => other
  end.

(** [!x] on a number: true for [0] and [NaN] *)
Definition falsy (x : num) : bool :=
  match x with
  | NaN => true
  | Fin a => Qeq_bool a 0
  | _ => false
  end.

(** [SortCompare] turns a [NaN] returned by the comparator into [+0]. *)
Definition nan_to_zero (x : num) : num :=
  match x with NaN => zero | other => other end.

End Num.

Abbreviation num := Num.num.

(** ** Dates

    A [Date] object holds a time value: an integral number of milliseconds
    since the epoch within [±8.64e15], or [NaN] (an invalid date). *)

Definition Date : Type := option Z.

Definition msPerDay : Z := 24 * 60 * 60 * 1000.

Definition maxTimeValue : Z := 8640000000000000.

(** [TimeClip] *)
Definition TimeClip (t : Z) : Date :=
  if Z.abs t <=? maxTimeValue then Some t else None.

(** [d.getTime()] *)
Definition getTime (d : Date) : num :=
  match d with
  | Some t => Num.of_Z t
  | None => Num.NaN
  end.

(** The parts of the host the engine and the actions call into: the date
    parser behind [new Date(string)] (its grammar beyond the ISO format is
    left to the implementation), the local time zone ([LocalTZA t isUTC] of
    ECMA-262, in milliseconds), and [Date.prototype.toISOString]. The empty
    string is not a date in any implementation. *)
Record Runtime : Type := {
  Date_parse : string → option Z;
  LocalTZA : Z → bool → Z;
  toISOString : Z → string;
  Date_parse_empty : Date_parse EmptyString = None;
}.

Section DateOps.

Context (rt : Runtime).

(** [new Date(s)] for a string [s] *)
Definition newDate (s : string) : Date :=
  Date_parse rt s ≫= TimeClip.

(** [LocalTime(t)] and [UTC(t)] of ECMA-262 *)
Definition LocalTime (t : Z) : Z := t + LocalTZA rt t true.
Definition UTC (t : Z) : Z := t - LocalTZA rt t false.

(** [d.setDate(d.getDate() + s)] for a number [s >= 0], returning the
    mutated date. [setDate] keeps the local time within the day and replaces
    the day by [MakeDay(YearFromTime(t), MonthFromTime(t), dt)], which is
    the day number of the first of the month plus [dt - 1]; with
    [dt = getDate() + s] that is the local day number of [d] plus the
    integral part of [s]. A non-finite [s] invalidates the date. *)
Definition setDate_getDate_plus (d : Date) (s : num) : Date :=
  match d, s with
  | Some t, Num.Fin q => TimeClip (UTC (LocalTime t + Qfloor q * msPerDay))
  | _, _ => None
  end.

End DateOps.

(** ** Entities ([entities/ingredient]) *)

Inductive SpoilageStatus : Type :=
| Fresh
| NearExpiry
| Expired
| Unknown.

(** The stored record. [shelfLifeDays] is optional here although its
    declared type is [number]: the engine tests it for absence, and a table
    row is whatever object was written. [purchasedAt] is an ISO string or
    [null]. *)
Record Ingredient : Type := {
  id : string;
  name : string;
  unit : string;
  stockQty : num;
  shelfLifeDays : option num;
  purchasedAt : option string;
}.

(** ** Spoilage engine ([engines/spoilage]) *)

Definition DEFAULT_NEAR_EXPIRY_THRESHOLD_DAYS : num := Num.of_Z 3.

(** [expiryDate] and [daysRemaining] are [null] ([None]) or a value; an
    [expiryDate] of [Some None] is an invalid [Date] object. *)
Record SpoilageResult : Type := {
  expiryDate : option Date;
  daysRemaining : option num;
  spoilageStatus : SpoilageStatus;
}.

Definition unknownSpoilage : SpoilageResult :=
  {| expiryDate := None; daysRemaining := None; spoilageStatus := Unknown |}.

(** [!s] on [string | null]: true for [null] and for the empty string *)
Definition falsy_string (s : option string) : bool :=
  match s with
  | None => true
  | Some s => if decide (s = EmptyString) then true else false
  end.

(** [!x] on an optional number: true when absent, [0] or [NaN] *)
Definition falsy_num (x : option num) : bool :=
  match x with
  | None => true
  | Some x => Num.falsy x
  end.

Section SpoilageEngine.

Context (rt : Runtime).

Definition computeSpoilage (ingredient : Ingredient) (currentDate : Date)
    (nearExpiryThresholdDays : num) : SpoilageResult :=
  (* Handle missing or invalid data *)
  if falsy_string (purchasedAt ingredient) then unknownSpoilage
  else if falsy_num (shelfLifeDays ingredient)
          || from_option (λ s, Num.leb s Num.zero) false (shelfLifeDays ingredient)
  then unknownSpoilage
  else
    match purchasedAt ingredient, shelfLifeDays ingredient with
    | Some purchased, Some shelf =>
        (* Parse purchase date, validate parsed date *)
        let purchaseDate := newDate rt purchased in
        if Num.isNaN (getTime purchaseDate) then unknownSpoilage
        else
          (* Compute expiry date (on a copy of the purchase date) *)
          let expiry := setDate_getDate_plus rt purchaseDate shelf in
          (* Compute days remaining *)
          let diffMs := Num.sub (getTime expiry) (getTime currentDate) in
          let days := Num.ceil (Num.div_pos diffMs (Num.of_Z msPerDay)) in
          (* Determine status *)
          let status :=
            if Num.ltb days Num.zero then Expired
            else if Num.leb days nearExpiryThresholdDays then NearExpiry
            else Fresh in
          {| expiryDate := Some expiry;
             daysRemaining := Some days;
             spoilageStatus := status |}
    | _, _ => unknownSpoilage
    end.

(** The enriched record [{...ingredient, inStock, expiryDate,
    daysRemaining, spoilageStatus}]: the spread ingredient is [base] and the
    three computed fields are kept together in [spoilage]. *)
Record IngredientWithSpoilage : Type := {
  base : Ingredient;
  inStock : bool;
  spoilage : SpoilageResult;
}.

Definition enrichWithSpoilage (ingredient : Ingredient) (currentDate : Date)
    : IngredientWithSpoilage :=
  let spoilage := computeSpoilage ingredient currentDate
                    DEFAULT_NEAR_EXPIRY_THRESHOLD_DAYS in
  {| base := ingredient;
     inStock := Num.gtb (stockQty ingredient) Num.zero;
     spoilage := spoilage |}.

Definition enrichAllWithSpoilage (ingredients : list Ingredient)
    (currentDate : Date) : list IngredientWithSpoilage :=
  map (λ ing, enrichWithSpoilage ing currentDate) ingredients.

End SpoilageEngine.

(** *** Sorting by urgency *)

Definition statusOrder (s : SpoilageStatus) : Z :=
  match s with
  | Expired => 0
  | NearExpiry => 1
  | Fresh => 2
  | Unknown => 3
  end.

(** The comparator handed to [sort] *)
Definition compareUrgency (a b : IngredientWithSpoilage) : num :=
  (* First sort by status *)
  let statusDiff := statusOrder (spoilageStatus (spoilage a))
                    - statusOrder (spoilageStatus (spoilage b)) in
  if negb (statusDiff =? 0) then Num.of_Z statusDiff
  else
    (* Then by days remaining (nulls last) *)
    match daysRemaining (spoilage a), daysRemaining (spoilage b) with
    | None, None => Num.of_Z 0
    | None, Some _ => Num.of_Z 1
    | Some _, None => Num.of_Z (-1)
    | Some da, Some db => Num.sub da db
    end.

Section ArraySort.

Context {A : Type} (comparefn : A → A → num).

(** [SortCompare(x, y)] of ECMA-262 for defined elements: the comparator's
    answer, with [NaN] read as [+0]. *)
Definition SortCompare (x y : A) : num := Num.nan_to_zero (comparefn x y).

(** [Array.prototype.sort] is a stable sort (ECMAScript 2019): elements the
    comparator does not order keep their relative order. The contents after
    the call are computed by stable insertion, the element at the front
    going before the first element it does not follow; for a comparator
    that orders the elements consistently every stable sort gives the same
    contents. *)
Fixpoint sort_insert (x : A) (l : list A) : list A :=
  match l with
  | [] => [x]
  | y :: l' =>
      if Num.gtb (SortCompare x y) Num.zero then y :: sort_insert x l'
      else x :: y :: l'
  end.

Fixpoint Array_sort (l : list A) : list A :=
  match l with
  | [] => []
  | x :: l' => sort_insert x (Array_sort l')
  end.

End ArraySort.

(** On the contents of the arrays: [[...ingredients].sort(compare)] *)
Definition sortByExpiryUrgency (ingredients : list IngredientWithSpoilage)
    : list IngredientWithSpoilage :=
  Array_sort compareUrgency ingredients.

(** *** Arrays and objects as references

    The caller and the callee share the array they pass around, and the
    array holds references to the enriched records: a heap of arrays of
    object references and a heap of objects. *)

Definition loc : Type := positive.

Record Heap : Type := {
  arrays : gmap loc (list loc);
  objects : gmap loc IngredientWithSpoilage;
}.

(** The comparator reads the two objects it is given. (Arrays of a
    well-formed heap hold no dangling reference; on one the comparison is
    left undecided.) *)
Definition compareUrgency_ref (h : Heap) (x y : loc) : num :=
  match objects h !! x, objects h !! y with
  | Some a, Some b => compareUrgency a b
  | _, _ => Num.NaN
  end.

(** [[...a]]: a new array with the elements of [a] *)
Definition spread (h : Heap) (a : loc) : option (loc * Heap) :=
  l ← arrays h !! a;
  let r := fresh (dom (arrays h)) in
  Some (r, {| arrays := <[r := l]> (arrays h); objects := objects h |}).

(** [a.sort(comparefn)]: sorts [a] in place and returns [a] *)
Definition Array_sort_in_place (comparefn : Heap → loc → loc → num)
    (h : Heap) (a : loc) : option (loc * Heap) :=
  l ← arrays h !! a;
  Some (a, {| arrays := <[a := Array_sort (comparefn h) l]> (arrays h);
              objects := objects h |}).

(** [sortByExpiryUrgency] on references: the copy is sorted, not the
    argument. [None] stands for a reference that is not an array. *)
Definition sortByExpiryUrgency_ref (h : Heap) (ingredients : loc)
    : option (loc * Heap) :=
  '(copy, h1) ← spread h ingredients;
  Array_sort_in_place compareUrgency_ref h1 copy.


(** ** The record store and asynchronous code

    [db.ingredients] is a table keyed by [id]. A call into the store is a
    request that the store may reject. What it does to the coming requests
    is fixed by [faults]: [Some e] rejects the next request with [e] before
    it has any effect, [None] (or an exhausted list) lets it through.
    [requests] records every request issued. *)

(** A thrown value: an [Error] object with its message, or anything else *)
Inductive thrown : Type :=
| ErrorObj (message : string)
| NotAnError.

Inductive Request : Type :=
| ReqGet (key : string)
| ReqAdd (key : string)
| ReqUpdate (key : string)
| ReqDelete (key : string)
| ReqCommit.

Record World : Type := {
  table : gmap string Ingredient;
  faults : list (option thrown);
  requests : list Request;
  clock : Z;
  uuids : nat → string;
  uuidsIssued : nat;
}.

Definition set_table (t : gmap string Ingredient) (w : World) : World :=
  {| table := t; faults := faults w; requests := requests w;
     clock := clock w; uuids := uuids w; uuidsIssued := uuidsIssued w |}.

Definition set_faults (f : list (option thrown)) (w : World) : World :=
  {| table := table w; faults := f; requests := requests w;
     clock := clock w; uuids := uuids w; uuidsIssued := uuidsIssued w |}.

Definition record_request (r : Request) (w : World) : World :=
  {| table := table w; faults := faults w; requests := requests w ++ [r];
     clock := clock w; uuids := uuids w; uuidsIssued := uuidsIssued w |}.

(** How a promise settles *)
Inductive Outcome (A : Type) : Type :=
| Fulfilled (a : A)
| Rejected (e : thrown).

Arguments Fulfilled {A} a.
Arguments Rejected {A} e.

(** An [async] computation: from the world to a settled promise and the
    world it leaves *)
Definition Async (A : Type) : Type := World → Outcome A * World.

Definition ret {A} (a : A) : Async A := λ w, (Fulfilled a, w).

Definition throw {A} (e : thrown) : Async A := λ w, (Rejected e, w).

Definition bind {A B} (m : Async A) (k : A → Async B) : Async B :=
  λ w, match m w with
       | (Fulfilled a, w1) => k a w1
       | (Rejected e, w1) => (Rejected e, w1)
       end.

(** [try { body } catch (error) { handler }] *)
Definition try_catch {A} (body : Async A) (handler : thrown → Async A)
    : Async A :=
  λ w, match body w with
       | (Fulfilled a, w1) => (Fulfilled a, w1)
       | (Rejected e, w1) => handler e w1
       end.

(** [x ← m; k] reads [const x = await m; k] *)
#[export] Instance Async_bind : MBind Async := λ A B k m, bind m k.

(** A request to the store: recorded, then rejected or performed *)
Definition request {A} (r : Request) (perform : Async A) : Async A :=
  λ w, let w1 := record_request r w in
       match faults w1 with
       | Some e :: rest => (Rejected e, set_faults rest w1)
       | None :: rest => perform (set_faults rest w1)
       | [] => perform w1
       end.

Module PartialIngredient.
(** The changes handed to [Table.update]: the fields to overwrite. The
    source never lists [id] among them. *)
Record t : Type := {
  name : option string;
  unit : option string;
  stockQty : option num;
  shelfLifeDays : option num;
  purchasedAt : option (option string);
}.
End PartialIngredient.

(** The row after [Table.update] has written the listed fields *)
Definition applyChanges (c : PartialIngredient.t) (ing : Ingredient)
    : Ingredient :=
  {| id := id ing;
     name := default (name ing) (PartialIngredient.name c);
     unit := default (unit ing) (PartialIngredient.unit c);
     stockQty := default (stockQty ing) (PartialIngredient.stockQty c);
     shelfLifeDays :=
       match PartialIngredient.shelfLifeDays c with
       | Some d => Some d
       | None => shelfLifeDays ing
       end;
     purchasedAt := default (purchasedAt ing) (PartialIngredient.purchasedAt c) |}.

(** [db.ingredients.get(key)]: the row, or [undefined] *)
Definition table_get (key : string) : Async (option Ingredient) :=
  request (ReqGet key) (λ w, (Fulfilled (table w !! key), w)).

(** [db.ingredients.update(key, changes)]: rewrites the row when there is
    one. (The count it resolves to is not used by the source.) *)
Definition table_update (key : string) (changes : PartialIngredient.t)
    : Async Datatypes.unit :=
  request (ReqUpdate key)
    (λ w, (Fulfilled tt, set_table (alter (applyChanges changes) key (table w)) w)).

(** [db.ingredients.add(item)]: rejects when the key is taken *)
Definition table_add (item : Ingredient) : Async string :=
  request (ReqAdd (id item))
    (λ w, match table w !! id item with
          | Some _ =>
              (Rejected (ErrorObj "Key already exists in the object store."), w)
          | None => (Fulfilled (id item), set_table (<[id item := item]> (table w)) w)
          end).

(** [db.ingredients.delete(key)] *)
Definition table_delete (key : string) : Async Datatypes.unit :=
  request (ReqDelete key)
    (λ w, (Fulfilled tt, set_table (delete key (table w)) w)).

(** [db.transaction('rw', db.ingredients, body)]: the writes of [body] are
    kept when it runs to completion and the commit goes through; a rejection
    inside [body], or of the commit, rolls the table back and is the
    rejection of the transaction. *)
Definition transaction {A} (body : Async A) : Async A :=
  λ w, match body w with
       | (Fulfilled a, w1) =>
           match request ReqCommit (ret a) w1 with
           | (Fulfilled a', w2) => (Fulfilled a', w2)
           | (Rejected e, w2) => (Rejected e, set_table (table w) w2)
           end
       | (Rejected e, w1) => (Rejected e, set_table (table w) w1)
       end.

(** [uuidv4()] *)
Definition uuidv4 : Async string :=
  λ w, (Fulfilled (uuids w (uuidsIssued w)),
        {| table := table w; faults := faults w; requests := requests w;
           clock := clock w; uuids := uuids w;
           uuidsIssued := S (uuidsIssued w) |}).

(** [new Date()]: the current instant *)
Definition newDate_now : Async Z := λ w, (Fulfilled (clock w), w).

(** [s.trim()]: white space and line terminators among the code units
    below 256 *)
Definition isWhiteSpace (c : ascii) : bool :=
  let n := N_of_ascii c in
  ((9 <=? n) && (n <=? 13) || (n =? 32) || (n =? 160))%N.

Fixpoint trimStart (s : string) : string :=
  match s with
  | String c s' => if isWhiteSpace c then trimStart s' else s
  | EmptyString => EmptyString
  end.

Fixpoint trimEnd (s : string) : string :=
  match s with
  | EmptyString => EmptyString
  | String c s' =>
      match trimEnd s' with
      | EmptyString => if isWhiteSpace c then EmptyString else String c EmptyString
      | rest => String c rest
      end
  end.

Definition trim (s : string) : string := trimEnd (trimStart s).

(** ** Buy action ([actions/buyIngredient]) *)

Record BuyIngredientInput : Type := {
  ingredientId : string;
  purchasedQty : num;
}.

Record BuyIngredientResult : Type := {
  success : bool;
  error : option string;
  updatedIngredient : option Ingredient;
  previousStockQty : option num;
  newStockQty : option num;
}.

Definition buyFailure (message : string) : BuyIngredientResult :=
  {| success := false;
     error := Some message;
     updatedIngredient := None;
     previousStockQty := None;
     newStockQty := None |}.

(** [error instanceof Error ? error.message : 'Unknown error occurred'] *)
Definition errorMessage (e : thrown) : string :=
  match e with
  | ErrorObj message => message
  | NotAnError => "Unknown error occurred"
  end.

Section Actions.

Context (rt : Runtime).

(** The body of the transaction of [buyIngredient] *)
Definition buyTransactionBody (ingredientId : string) (purchasedQty : num)
    : Async (option Ingredient * num * num) :=
  (* Fetch ingredient *)
  ingredient ← table_get ingredientId;
  match ingredient with
  | None => throw (ErrorObj "Ingredient not found")
  | Some ingredient =>
      let previousStockQty := stockQty ingredient in
      let newStockQty := Num.add previousStockQty purchasedQty in
      now ← newDate_now;
      let newPurchasedAt := toISOString rt now in
      (* Update ingredient *)
      table_update ingredientId
        {| PartialIngredient.name := None;
           PartialIngredient.unit := None;
           PartialIngredient.stockQty := Some newStockQty;
           PartialIngredient.shelfLifeDays := None;
           PartialIngredient.purchasedAt := Some (Some newPurchasedAt) |};;
      (* Fetch updated ingredient *)
      updatedIngredient ← table_get ingredientId;
      ret (updatedIngredient, previousStockQty, newStockQty)
  end.

Definition buyIngredient (input : BuyIngredientInput)
    : Async BuyIngredientResult :=
  let ingredientId := ingredientId input in
  let purchasedQty := purchasedQty input in
  (* Validate: quantity must be positive *)
  if Num.leb purchasedQty Num.zero then
    ret (buyFailure "Purchase quantity must be greater than 0")
  (* Validate: quantity must be a finite number *)
  else if negb (Num.isFinite purchasedQty) then
    ret (buyFailure "Purchase quantity must be a valid number")
  else
    try_catch
      (result ← transaction (buyTransactionBody ingredientId purchasedQty);
       let '(updatedIngredient, previousStockQty, newStockQty) := result in
       ret {| success := true;
              error := None;
              updatedIngredient := updatedIngredient;
              previousStockQty := Some previousStockQty;
              newStockQty := Some newStockQty |})
      (λ error, ret (buyFailure (errorMessage error))).

End Actions.

(** ** CRUD operations ([actions/ingredientCrud]) *)

Module IngredientFormData.
Record t : Type := {
  name : string;
  unit : string;
  stockQty : num;
  shelfLifeDays : num;
}.
End IngredientFormData.

(** [Partial<IngredientFormData>]: a field is [undefined] or a value *)
Module PartialFormData.
Record t : Type := {
  name : option string;
  unit : option string;
  stockQty : option num;
  shelfLifeDays : option num;
}.
End PartialFormData.

Definition createIngredient (data : IngredientFormData.t) : Async Ingredient :=
  newId ← uuidv4;
  let ingredient :=
    {| id := newId;
       name := trim (IngredientFormData.name data);
       unit := trim (IngredientFormData.unit data);
       stockQty := IngredientFormData.stockQty data;
       shelfLifeDays := Some (IngredientFormData.shelfLifeDays data);
       purchasedAt := None (* No purchase until Buy action *) |} in
  table_add ingredient;;
  ret ingredient.

Definition updateIngredient (id : string) (data : PartialFormData.t)
    : Async (option Ingredient) :=
  existing ← table_get id;
  match existing with
  | None => ret None
  | Some _ =>
      let updates :=
        {| PartialIngredient.name := trim <$> PartialFormData.name data;
           PartialIngredient.unit := trim <$> PartialFormData.unit data;
           PartialIngredient.stockQty := PartialFormData.stockQty data;
           PartialIngredient.shelfLifeDays := PartialFormData.shelfLifeDays data;
           PartialIngredient.purchasedAt := None |} in
      table_update id updates;;
      updated ← table_get id;
      ret updated
  end.

Definition deleteIngredient (id : string) : Async bool :=
  existing ← table_get id;
  match existing with
  | None => ret false
  | Some _ =>
      table_delete id;;
      ret true
  end.

(** ** A concrete host

    An executable [Runtime]: the ISO date-time format that
    [toISOString] writes and every [Date.parse] reads, over the proleptic
    Gregorian calendar, with the time zone as a parameter. It serves the
    worked examples; the theorems hold for every [Runtime]. *)

Module Host.

(** Day number (days since the epoch) of a civil date, and back *)
Definition days_from_civil (y m d : Z) : Z :=
  let y := if m <=? 2 then y - 1 else y in
  let era := y / 400 in
  let yoe := y - era * 400 in
  let doy := (153 * (if 2 <? m then m - 3 else m + 9) + 2) / 5 + d - 1 in
  let doe := yoe * 365 + yoe / 4 - yoe / 100 + doy in
  era * 146097 + doe - 719468.

Definition civil_from_days (z : Z) : Z * Z * Z :=
  let z := z + 719468 in
  let era := z / 146097 in
  let doe := z - era * 146097 in
  let yoe := (doe - doe / 1460 + doe / 36524 - doe / 146096) / 365 in
  let doy := doe - (365 * yoe + yoe / 4 - yoe / 100) in
  let mp := (5 * doy + 2) / 153 in
  let d := doy - (153 * mp + 2) / 5 + 1 in
  let m := if mp <? 10 then mp + 3 else mp - 9 in
  (if m <=? 2 then yoe + era * 400 + 1 else yoe + era * 400, m, d).

Definition digit (n : Z) : ascii := ascii_of_N (48 + Z.to_N (n mod 10)).

Fixpoint digits (width : nat) (n : Z) (suffix : string) : string :=
  match width with
  | O => suffix
  | S w => digits w (n / 10) (String (digit n) suffix)
  end.

Definition formatISO (t : Z) : string :=
  let '(y, m, d) := civil_from_days (t / msPerDay) in
  let r := t mod msPerDay in
  let year :=
    if (0 <=? y) && (y <=? 9999) then digits 4 y EmptyString
    else String (if y <? 0 then "-"%char else "+"%char) (digits 6 (Z.abs y) EmptyString) in
  (year ++ "-" ++ digits 2 m "-" ++ digits 2 d "T"
   ++ digits 2 (r / 3600000) ":" ++ digits 2 (r / 60000 mod 60) ":"
   ++ digits 2 (r / 1000 mod 60) "." ++ digits 3 (r mod 1000) "Z")%string.

Definition digit_value (c : ascii) : option Z :=
  let n := Z.of_N (N_of_ascii c) in
  if (48 <=? n) && (n <=? 57) then Some (n - 48) else None.

Fixpoint read_digits (width : nat) (acc : Z) (s : string) : option (Z * string) :=
  match width, s with
  | O, _ => Some (acc, s)
  | S w, String c s' => d ← digit_value c; read_digits w (10 * acc + d) s'
  | S _, EmptyString => None
  end.

Definition expect (c : ascii) (s : string) : option string :=
  match s with
  | String c' s' => if decide (c = c') then Some s' else None
  | EmptyString => None
  end.

(** [YYYY-MM-DDTHH:mm:ss.sssZ]; anything else is not a date for this host *)
Definition parseISO (s : string) : option Z :=
  '(y, s) ← read_digits 4 0 s; s ← expect "-" s;
  '(m, s) ← read_digits 2 0 s; s ← expect "-" s;
  '(d, s) ← read_digits 2 0 s; s ← expect "T" s;
  '(h, s) ← read_digits 2 0 s; s ← expect ":" s;
  '(mi, s) ← read_digits 2 0 s; s ← expect ":" s;
  '(sec, s) ← read_digits 2 0 s; s ← expect "." s;
  '(ms, s) ← read_digits 3 0 s; s ← expect "Z" s;
  let day := days_from_civil y m d in
  if decide (s = EmptyString ∧ civil_from_days day = (y, m, d)
             ∧ h < 24 ∧ mi < 60 ∧ sec < 60)
  then Some (day * msPerDay + h * 3600000 + mi * 60000 + sec * 1000 + ms)
  else None.

Definition host (tza : Z → bool → Z) : Runtime :=
  {| Date_parse := parseISO;
     LocalTZA := tza;
     toISOString := formatISO;
     Date_parse_empty := eq_refl |}.

(** A host on UTC *)
Definition utc : Runtime := host (λ _ _, 0).

(** A host on New York time, with the clock changes of 2024: daylight time
    (UTC-4) from 2024-03-10T07:00Z to 2024-11-03T06:00Z, standard time
    (UTC-5) otherwise. A local time that the change skips or repeats is read
    with the offset in force before the change. *)
Definition newYorkTZA (t : Z) (isUTC : bool) : Z :=
  let daylight :=
    if isUTC then (1710054000000 <=? t) && (t <? 1730613600000)
    else (1710039600000 <=? t) && (t <? 1730599200000) in
  if daylight then -4 * 3600000 else -5 * 3600000.

Definition newYork : Runtime := host newYorkTZA.

End Host.


(** ** Worked inputs *)

Module Sample.

(** Bought on 2024-10-28 at 16:00 UTC (noon in New York), good for a week *)
Definition purchased : Z := 1730131200000.

Definition milk : Ingredient :=
  {| id := "milk";
     name := "Milk";
     unit := "L";
     stockQty := Num.of_Z 2;
     shelfLifeDays := Some (Num.of_Z 7);
     purchasedAt := Some "2024-10-28T16:00:00.000Z"%string |}.

(** Never bought *)
Definition flour : Ingredient :=
  {| id := "flour";
     name := "Flour";
     unit := "kg";
     stockQty := Num.of_Z 2;
     shelfLifeDays := Some (Num.of_Z 180);
     purchasedAt := None |}.

(** Bought on 2024-10-20, good for three days *)
Definition yogurt : Ingredient :=
  {| id := "yogurt";
     name := "Yogurt";
     unit := "pieces";
     stockQty := Num.of_Z 4;
     shelfLifeDays := Some (Num.of_Z 3);
     purchasedAt := Some "2024-10-20T08:00:00.000Z"%string |}.

(** Bought together with the milk, good for a week as well *)
Definition cream : Ingredient :=
  {| id := "cream";
     name := "Cream";
     unit := "ml";
     stockQty := Num.of_Z 200;
     shelfLifeDays := Some (Num.of_Z 7);
     purchasedAt := Some "2024-10-28T16:00:00.000Z"%string |}.

(** Bought on 2024-10-28, good for a month *)
Definition butter : Ingredient :=
  {| id := "butter";
     name := "Butter";
     unit := "g";
     stockQty := Num.of_Z 250;
     shelfLifeDays := Some (Num.of_Z 30);
     purchasedAt := Some "2024-10-28T16:00:00.000Z"%string |}.

(** The pantry as the page shows it on 2024-11-01 at 16:00 UTC *)
Definition pantry : list IngredientWithSpoilage :=
  enrichAllWithSpoilage Host.utc [flour; milk; butter; cream; yogurt]
    (Some (purchased + 4 * msPerDay)).

(** The same pantry as the caller holds it: an array at address 1 of
    references to five objects *)
Definition kitchen : Heap :=
  {| arrays := {[ 1%positive := [10; 11; 12; 13; 14]%positive ]};
     objects := list_to_map (zip [10; 11; 12; 13; 14]%positive pantry) |}.

(** The store on 2024-11-01 at 16:00 UTC, in working order *)
Definition store : World :=
  {| table := list_to_map [("milk"%string, milk); ("flour"%string, flour)];
     faults := [];
     requests := [];
     clock := purchased + 4 * msPerDay;
     uuids := λ n, Host.digits 12 (Z.of_nat n) EmptyString;
     uuidsIssued := 0 |}.


Definition eggs : IngredientFormData.t :=
  {| IngredientFormData.name := "  Eggs ";
     IngredientFormData.unit := "pieces";
     IngredientFormData.stockQty := Num.of_Z 12;
     IngredientFormData.shelfLifeDays := Num.of_Z 21 |}.

End Sample.

(** ** Vocabulary of the statements *)

(** The order in which a status may follow another as time passes *)
Inductive ages_into : SpoilageStatus → SpoilageStatus → Prop :=
| ages_same s : ages_into s s
| ages_fresh_near : ages_into Fresh NearExpiry
| ages_fresh_expired : ages_into Fresh Expired
| ages_near_expired : ages_into NearExpiry Expired.

Section SpoilageVocabulary.

Context (rt : Runtime).

(** What the engine returns past its three guards *)
Definition liveSpoilage (t : Z) (shelf : num) (currentDate : Date)
    (threshold : num) : SpoilageResult :=
  let expiry := setDate_getDate_plus rt (Some t) shelf in
  let days :=
    Num.ceil (Num.div_pos (Num.sub (getTime expiry) (getTime currentDate))
                          (Num.of_Z msPerDay)) in
  {| expiryDate := Some expiry;
     daysRemaining := Some days;
     spoilageStatus :=
       if Num.ltb days Num.zero then Expired
       else if Num.leb days threshold then NearExpiry
       else Fresh |}.

End SpoilageVocabulary.

(** The two keys of the urgency order *)
Definition status_of (x : IngredientWithSpoilage) : SpoilageStatus :=
  spoilageStatus (spoilage x).

Definition days_of (x : IngredientWithSpoilage) : option num :=
  daysRemaining (spoilage x).

(** The derived view of the data model: [daysRemaining] is [null] or a
    (finite) number of days. *)
Definition daysWellFormed (x : IngredientWithSpoilage) : Prop :=
  match days_of x with
  | Some d => Num.isFinite d = true
  | None => True
  end.

(** Ascending day counts, [null] last *)
Inductive days_le : option num → option num → Prop :=
| days_le_fin (a b : Q) : (a <= b)%Q → days_le (Some (Num.Fin a)) (Some (Num.Fin b))
| days_le_null (d : option num) : days_le d None.

(** At least as urgent: an earlier status bucket, or the same bucket and
    no more days left *)
Definition urgency_le (a b : IngredientWithSpoilage) : Prop :=
  statusOrder (status_of a) < statusOrder (status_of b)
  ∨ (status_of a = status_of b ∧ days_le (days_of a) (days_of b)).

(** Entries that compare equal: same status, same day count *)
Definition tied (a b : IngredientWithSpoilage) : bool :=
  (statusOrder (status_of a) =? statusOrder (status_of b))
  && match days_of a, days_of b with
     | None, None => true
     | Some (Num.Fin x), Some (Num.Fin y) => Qeq_bool x y
     | _, _ => false
     end.

(** A quantity the buy action accepts: a finite number above zero *)
Definition validQuantity (x : num) : Prop :=
  ∃ q : Q, x = Num.Fin q ∧ (0 < q)%Q.

(** A store that performs the requests to come: no rejection is due *)
Definition available (w : World) : Prop :=
  Forall (λ f, f = None) (faults w).


(** ** The rest of the engine ([engines/spoilage]) *)

#[export] Instance SpoilageStatus_eq_dec : EqDecision SpoilageStatus.
Proof. solve_decision. Defined.

Definition filterBySpoilageStatus (ingredients : list IngredientWithSpoilage)
    (status : SpoilageStatus) : list IngredientWithSpoilage :=
  List.filter (λ ing, bool_decide (spoilageStatus (spoilage ing) = status))
    ingredients.

(** [Record<SpoilageStatus, number>]: an object with one count per status *)
Module Summary.
Record t : Type := {
  Fresh : Z;
  NearExpiry : Z;
  Expired : Z;
  Unknown : Z;
}.
End Summary.

(** [summary[status]] and [summary[status]++] *)
Definition summary_get (status : SpoilageStatus) (summary : Summary.t) : Z :=
  match status with
  | Fresh => Summary.Fresh summary
  | NearExpiry => Summary.NearExpiry summary
  | Expired => Summary.Expired summary
  | Unknown => Summary.Unknown summary
  end.

Definition summary_increment (status : SpoilageStatus) (summary : Summary.t)
    : Summary.t :=
  match status with
  | Fresh =>
      {| Summary.Fresh := Summary.Fresh summary + 1;
         Summary.NearExpiry := Summary.NearExpiry summary;
         Summary.Expired := Summary.Expired summary;
         Summary.Unknown := Summary.Unknown summary |}
  | NearExpiry =>
      {| Summary.Fresh := Summary.Fresh summary;
         Summary.NearExpiry := Summary.NearExpiry summary + 1;
         Summary.Expired := Summary.Expired summary;
         Summary.Unknown := Summary.Unknown summary |}
  | Expired =>
      {| Summary.Fresh := Summary.Fresh summary;
         Summary.NearExpiry := Summary.NearExpiry summary;
         Summary.Expired := Summary.Expired summary + 1;
         Summary.Unknown := Summary.Unknown summary |}
  | Unknown =>
      {| Summary.Fresh := Summary.Fresh summary;
         Summary.NearExpiry := Summary.NearExpiry summary;
         Summary.Expired := Summary.Expired summary;
         Summary.Unknown := Summary.Unknown summary + 1 |}
  end.

Definition getSpoilageSummary (ingredients : list IngredientWithSpoilage)
    : Summary.t :=
  fold_left
    (λ summary ing, summary_increment (spoilageStatus (spoilage ing)) summary)
    ingredients
    {| Summary.Fresh := 0;
       Summary.NearExpiry := 0;
       Summary.Expired := 0;
       Summary.Unknown := 0 |}.

(** ** The audit record ([actions/buyIngredient]) *)

Module BuyIngredientAudit.
Record t : Type := {
  actionType : string;
  timestamp : string;
  ingredientId : string;
  purchasedQty : num;
  previousStockQty : num;
  newStockQty : num;
}.
End BuyIngredientAudit.

Section Audit.

Context (rt : Runtime).


End Audit.

(** ** The reads of the CRUD module ([actions/ingredientCrud]) *)

(** A request that scans the table instead of addressing a key: the store
    may reject it like any other; it is not entered in [requests], which
    lists the keyed requests and the commits. *)
Definition scan {A} (perform : Async A) : Async A :=
  λ w, match faults w with
       | Some e :: rest => (Rejected e, set_faults rest w)
       | None :: rest => perform (set_faults rest w)
       | [] => perform w
       end.

(** The order of the primary keys: strings compare by code units. *)
Definition key_le (a b : string * Ingredient) : Prop :=
  String.leb a.1 b.1 = true.

#[export] Instance key_le_dec (a b : string * Ingredient) : Decision (key_le a b).
Proof. unfold key_le. apply _. Defined.

(** [db.ingredients.toArray()]: the rows in the order of their keys *)
Definition table_toArray : Async (list Ingredient) :=
  scan (λ w, (Fulfilled (map snd (merge_sort key_le (map_to_list (table w)))), w)).

(** [db.ingredients.count()] *)
Definition table_count : Async Z :=
  scan (λ w, (Fulfilled (Z.of_nat (size (table w))), w)).

(** [db.ingredients.clear()] *)
Definition table_clear : Async Datatypes.unit :=
  scan (λ w, (Fulfilled tt, set_table ∅ w)).

(** [s.toLowerCase()] on the code units below 256: the letters A-Z and the
    capital letters of Latin-1 *)
Definition toLowerCase_unit (c : ascii) : ascii :=
  let n := N_of_ascii c in
  if ((65 <=? n) && (n <=? 90)
      || (192 <=? n) && (n <=? 222) && negb (n =? 215))%N
  then ascii_of_N (n + 32) else c.

Fixpoint toLowerCase (s : string) : string :=
  match s with
  | EmptyString => EmptyString
  | String c s' => String (toLowerCase_unit c) (toLowerCase s')
  end.

(** [s.includes(sub)] *)
Fixpoint includes (s sub : string) : bool :=
  if String.prefix sub s then true
  else match s with
       | EmptyString => false
       | String _ s' => includes s' sub
       end.

Definition getAllIngredients : Async (list Ingredient) := table_toArray.

Definition getIngredientById (id : string) : Async (option Ingredient) :=
  table_get id.

Definition searchIngredientsByName (query : string) : Async (list Ingredient) :=
  let normalizedQuery := trim (toLowerCase query) in
  if decide (normalizedQuery = EmptyString) then getAllIngredients
  else
    all ← table_toArray;
    ret (List.filter
           (λ ing, includes (toLowerCase (name ing)) normalizedQuery) all).

Definition getIngredientCount : Async Z := table_count.

(** [excludeId] is [undefined] ([None]) when the caller leaves it out; no
    [id] is equal to [undefined]. *)
Definition ingredientNameExists (name_ : string) (excludeId : option string)
    : Async bool :=
  let normalizedName := trim (toLowerCase name_) in
  all ← table_toArray;
  ret (existsb
         (λ ing, bool_decide (toLowerCase (name ing) = normalizedName)
                 && negb (bool_decide (Some (id ing) = excludeId)))
         all).

(** ** The database module ([db]) *)

Definition clearAllData : Async Datatypes.unit := table_clear.

Definition getDbStats : Async Z :=
  ingredientCount ← table_count;
  ret ingredientCount.

(** ** Form validation ([entities/ingredient]) *)

(** [ValidationResult]: [errors] is an object used as a map from field
    names to messages. *)
Record ValidationResult : Type := {
  valid : bool;
  errors : gmap string string;
}.

Definition validateIngredientForm (data : IngredientFormData.t)
    : ValidationResult :=
  let errors : gmap string string := ∅ in
  (* Name validation *)
  let errors :=
    if bool_decide (IngredientFormData.name data = EmptyString)
       || bool_decide (trim (IngredientFormData.name data) = EmptyString)
    then <["name" := "Name is required"]> errors
    else if (100 <? String.length (IngredientFormData.name data))%nat
    then <["name" := "Name must be 100 characters or less"]> errors
    else errors in
  (* Unit validation *)
  let errors :=
    if bool_decide (IngredientFormData.unit data = EmptyString)
       || bool_decide (trim (IngredientFormData.unit data) = EmptyString)
    then <["unit" := "Unit is required"]> errors
    else if (20 <? String.length (IngredientFormData.unit data))%nat
    then <["unit" := "Unit must be 20 characters or less"]> errors
    else errors in
  (* Stock quantity validation *)
  let errors :=
    if Num.ltb (IngredientFormData.stockQty data) Num.zero
    then <["stockQty" := "Stock quantity cannot be negative"]> errors
    else errors in
  (* Shelf life validation *)
  let errors :=
    if Num.falsy (IngredientFormData.shelfLifeDays data)
       || Num.leb (IngredientFormData.shelfLifeDays data) Num.zero
    then <["shelfLifeDays" := "Shelf life must be greater than 0"]> errors
    else if Num.gtb (IngredientFormData.shelfLifeDays data) (Num.of_Z 3650)
    then <["shelfLifeDays" := "Shelf life cannot exceed 10 years"]> errors
    else errors in
  {| valid := bool_decide (size errors = 0%nat); errors := errors |}.

Definition createDefaultIngredient : IngredientFormData.t :=
  {| IngredientFormData.name := "";
     IngredientFormData.unit := "pieces";
     IngredientFormData.stockQty := Num.of_Z 0;
     IngredientFormData.shelfLifeDays := Num.of_Z 7 |}.

(** ** Vocabulary of the further statements *)

(** The row a purchase of [qty] at the instant [now] leaves *)
Definition bought (rt : Runtime) (now : Z) (qty : num) (ing : Ingredient)
    : Ingredient :=
  {| id := id ing;
     name := name ing;
     unit := unit ing;
     stockQty := Num.add (stockQty ing) qty;
     shelfLifeDays := shelfLifeDays ing;
     purchasedAt := Some (toISOString rt now) |}.

(** The row [createIngredient] writes for a form under a new identifier *)
Definition created (newId : string) (data : IngredientFormData.t) : Ingredient :=
  {| id := newId;
     name := trim (IngredientFormData.name data);
     unit := trim (IngredientFormData.unit data);
     stockQty := IngredientFormData.stockQty data;
     shelfLifeDays := Some (IngredientFormData.shelfLifeDays data);
     purchasedAt := None |}.

(** Every row is kept under its own identifier. *)
Definition keyed_by_id (t : gmap string Ingredient) : Prop :=
  ∀ k ing, t !! k = Some ing → id ing = k.

(** The forms the validation is meant to let through. *)
Definition acceptable (data : IngredientFormData.t) : Prop :=
  trim (IngredientFormData.name data) ≠ EmptyString
  ∧ (String.length (IngredientFormData.name data) <= 100)%nat
  ∧ trim (IngredientFormData.unit data) ≠ EmptyString
  ∧ (String.length (IngredientFormData.unit data) <= 20)%nat
  ∧ (IngredientFormData.stockQty data = Num.NaN
     ∨ IngredientFormData.stockQty data = Num.PInf
     ∨ ∃ q, IngredientFormData.stockQty data = Num.Fin q ∧ (0 <= q)%Q)
  ∧ ∃ q, IngredientFormData.shelfLifeDays data = Num.Fin q
         ∧ (0 < q)%Q ∧ (q <= 3650)%Q.

(** * Properties *)

(** ** Numbers *)

Lemma Num_ltb_of_Z (a b : Z) : Num.ltb (Num.of_Z a) (Num.of_Z b) = (a <? b).
Proof.
  unfold Num.ltb, Num.of_Z, Num.Qltb.
  destruct (Qle_bool (inject_Z b) (inject_Z a)) eqn:E; simpl.
  - apply Qle_bool_iff in E. rewrite <- Zle_Qle in E. symmetry. apply Z.ltb_ge. lia.
  - symmetry. apply Z.ltb_lt. destruct (Z.lt_ge_cases a b) as [|H]; [lia|].
    rewrite Zle_Qle in H. apply Qle_bool_iff in H. congruence.
Qed.

Lemma Num_leb_of_Z (a b : Z) : Num.leb (Num.of_Z a) (Num.of_Z b) = (a <=? b).
Proof.
  unfold Num.leb, Num.of_Z.
  destruct (Qle_bool (inject_Z a) (inject_Z b)) eqn:E.
  - apply Qle_bool_iff in E. rewrite <- Zle_Qle in E. symmetry. apply Z.leb_le. lia.
  - symmetry. apply Z.leb_gt. destruct (Z.lt_ge_cases b a) as [|H]; [lia|].
    rewrite Zle_Qle in H. apply Qle_bool_iff in H. congruence.
Qed.

Lemma Qle_bool_false (a b : Q) : Qle_bool a b = false → (b < a)%Q.
Proof.
  intros E. apply Qnot_le_lt. intros H. apply Qle_bool_iff in H. congruence.
Qed.

(** [<=] against a fixed bound is downward closed on the integers. *)
Lemma Num_leb_of_Z_mono (a b : Z) (y : num) :
  a <= b → Num.leb (Num.of_Z b) y = true → Num.leb (Num.of_Z a) y = true.
Proof.
  intros Hab. destruct y as [| | |q]; simpl; try done.
  intros H. apply Qle_bool_iff in H. apply Qle_bool_iff.
  eapply Qle_trans; [|exact H]. by rewrite <- Zle_Qle.
Qed.


(** The day count of the engine on two instants: the least whole number of
    days that covers the remaining time. *)
Lemma ceil_days_of_Z (e n : Z) :
  Num.ceil (Num.div_pos (Num.sub (Num.of_Z e) (Num.of_Z n)) (Num.of_Z msPerDay))
  = Num.of_Z (- ((n - e) / msPerDay)).
Proof.
  unfold Num.of_Z, Num.sub, Num.div_pos.
  change (Num.Qltb 0 (inject_Z msPerDay)) with true. cbv iota.
  unfold Num.ceil, Num.of_Z. do 2 f_equal.
  unfold Qceiling, Qfloor, Qdiv, Qminus, Qopp, Qplus, Qmult, inject_Z.
  change (Qinv (msPerDay # 1)) with (1 # 86400000)%Q.
  cbn [Qnum Qden]. do 2 f_equal. lia.
Qed.


(** ** Spoilage engine *)

Section SpoilageFacts.

Context (rt : Runtime).

(** Either a guard fires, or the data is complete and the result is
    computed from the parsed purchase instant and the shelf life alone. *)
Lemma computeSpoilage_cases (ing : Ingredient) (now : Date) (thr : num) :
  computeSpoilage rt ing now thr = unknownSpoilage
  ∨ ∃ p t shelf,
      purchasedAt ing = Some p ∧ newDate rt p = Some t
      ∧ shelfLifeDays ing = Some shelf
      ∧ (∀ now' thr', computeSpoilage rt ing now' thr' = liveSpoilage rt t shelf now' thr').
Proof.
  unfold computeSpoilage.
  destruct (purchasedAt ing) as [p|] eqn:Hp; [|by left].
  destruct (falsy_string (Some p)) eqn:Hfs; [by left|].
  destruct (shelfLifeDays ing) as [shelf|] eqn:Hs; [|by left].
  destruct (falsy_num (Some shelf) || from_option _ false (Some shelf)) eqn:Hg;
    [by left|].
  destruct (newDate rt p) as [t|] eqn:Ht; [|by left].
  right. exists p, t, shelf. repeat split; try done.
Qed.


(** On two valid instants the day count is the ceiling of the remaining
    time in days, and the status is read off it. *)
Lemma liveSpoilage_days (t : Z) (shelf : num) (e n : Z) (thr : num) :
  setDate_getDate_plus rt (Some t) shelf = Some e →
  liveSpoilage rt t shelf (Some n) thr =
  let k := - ((n - e) / msPerDay) in
  {| expiryDate := Some (Some e);
     daysRemaining := Some (Num.of_Z k);
     spoilageStatus :=
       if k <? 0 then Expired
       else if Num.leb (Num.of_Z k) thr then NearExpiry
       else Fresh |}.
Proof.
  intros He. unfold liveSpoilage. rewrite He. cbn [getTime].
  rewrite ceil_days_of_Z. unfold Num.zero. by rewrite Num_ltb_of_Z.
Qed.

End SpoilageFacts.

(** ** Claims on the spoilage engine *)




(** C2. When [purchasedAt] is null, or [shelfLifeDays] is absent or at
    most 0, or [purchasedAt] does not parse as a valid instant,
    [computeSpoilage] returns the record with a null [expiryDate], a null
    [daysRemaining] and status Unknown. And no input makes it fail: it is a
    total function, which on every ingredient, reference date and threshold
    returns that record or one with an [expiryDate], a [daysRemaining] and
    one of the three other statuses. *)
Theorem computeSpoilage_missing_data (rt : Runtime) (ing : Ingredient)
    (now : Date) (thr : num) :
  (purchasedAt ing = None
   ∨ shelfLifeDays ing = None
   ∨ (∃ s, shelfLifeDays ing = Some s ∧ Num.leb s Num.zero = true)
   ∨ (∃ p, purchasedAt ing = Some p ∧ newDate rt p = None) →
   computeSpoilage rt ing now thr = unknownSpoilage)
  ∧ (computeSpoilage rt ing now thr = unknownSpoilage
     ∨ ∃ e d, expiryDate (computeSpoilage rt ing now thr) = Some e
              ∧ daysRemaining (computeSpoilage rt ing now thr) = Some d
              ∧ spoilageStatus (computeSpoilage rt ing now thr) ≠ Unknown).
Proof.
  split.
  - intros H.
    destruct (computeSpoilage_cases rt ing now thr)
      as [Hu | (p & t & shelf & Hp & Ht & Hs & _)]; [done|].
    unfold computeSpoilage.
    destruct H as [H | [H | [(s & H & Hle) | (p' & H & Hparse)]]].
    + by rewrite H.
    + rewrite H. simpl. by destruct (falsy_string (purchasedAt ing)).
    + rewrite H. simpl. rewrite Hle, orb_true_r.
      by destruct (falsy_string (purchasedAt ing)).
    + congruence.
  - destruct (computeSpoilage_cases rt ing now thr)
      as [Hu | (p & t & shelf & _ & _ & _ & Hlive)]; [by left|].
    right. rewrite Hlive. unfold liveSpoilage. cbn. eexists _, _.
    repeat split. by repeat case_match.
Qed.

Lemma computeSpoilage_missing_data_witness :
  computeSpoilage Host.utc Sample.flour (Some Sample.purchased) (Num.of_Z 3)
  = unknownSpoilage.
Proof.
  apply (computeSpoilage_missing_data Host.utc Sample.flour
           (Some Sample.purchased) (Num.of_Z 3)).
  left. reflexivity.
Defined.

(** C3. With the ingredient and the threshold fixed, and two reference
    instants [now1 <= now2]: the [daysRemaining] returned at [now2] is at
    most the one returned at [now1], and the status at [now2] is the status
    at [now1] or one further along Fresh, NearExpiry, Expired. *)
Theorem computeSpoilage_monotone (rt : Runtime) (ing : Ingredient)
    (thr : num) (now1 now2 : Z) :
  now1 <= now2 →
  (∀ d1 d2 : Q,
     daysRemaining (computeSpoilage rt ing (Some now1) thr) = Some (Num.Fin d1) →
     daysRemaining (computeSpoilage rt ing (Some now2) thr) = Some (Num.Fin d2) →
     (d2 <= d1)%Q)
  ∧ ages_into (spoilageStatus (computeSpoilage rt ing (Some now1) thr))
              (spoilageStatus (computeSpoilage rt ing (Some now2) thr)).
Proof.
  intros Hnow.
  destruct (computeSpoilage_cases rt ing (Some now1) thr)
    as [Hu | (p & t & shelf & _ & _ & _ & Hlive)].
  { assert (computeSpoilage rt ing (Some now2) thr = unknownSpoilage) as ->.
    { destruct (computeSpoilage_cases rt ing (Some now2) thr)
        as [Hu' | (p & t & shelf & _ & _ & _ & Hlive)]; [done|].
      rewrite Hlive in Hu. by rewrite Hlive. }
    rewrite Hu. split; [done | constructor]. }
  rewrite !Hlive.
  destruct (setDate_getDate_plus rt (Some t) shelf) as [e|] eqn:He.
  - rewrite !(liveSpoilage_days rt t shelf e _ thr He). cbv zeta.
    cbn [daysRemaining spoilageStatus].
    assert (- ((now2 - e) / msPerDay) <= - ((now1 - e) / msPerDay)) as Hk.
    { assert ((now1 - e) / msPerDay <= (now2 - e) / msPerDay)
        by (apply Z.div_le_mono; [done | lia]).
      lia. }
    split.
    + intros d1 d2 [= <-] [= <-]. by rewrite <- Zle_Qle.
    + destruct (- ((now1 - e) / msPerDay) <? 0) eqn:E1.
      { apply Z.ltb_lt in E1.
        assert ((- ((now2 - e) / msPerDay) <? 0) = true) as ->
          by (apply Z.ltb_lt; lia).
        constructor. }
      destruct (Num.leb (Num.of_Z (- ((now1 - e) / msPerDay))) thr) eqn:E2.
      { rewrite (Num_leb_of_Z_mono _ _ thr Hk E2).
        destruct (- ((now2 - e) / msPerDay) <? 0); constructor. }
      repeat case_match; constructor.
  - unfold liveSpoilage. rewrite He. cbn. split; [done | constructor].
Qed.

Lemma computeSpoilage_monotone_witness :
  Sample.purchased + 4 * msPerDay <= Sample.purchased + 8 * msPerDay
  ∧ ages_into
      (spoilageStatus (computeSpoilage Host.newYork Sample.milk
                         (Some (Sample.purchased + 4 * msPerDay)) (Num.of_Z 3)))
      (spoilageStatus (computeSpoilage Host.newYork Sample.milk
                         (Some (Sample.purchased + 8 * msPerDay)) (Num.of_Z 3))).
Proof.
  split; [vm_compute; congruence|].
  apply (computeSpoilage_monotone Host.newYork Sample.milk (Num.of_Z 3)
           (Sample.purchased + 4 * msPerDay) (Sample.purchased + 8 * msPerDay)).
  vm_compute; congruence.
Defined.

Example milk_ages_in_new_york :
  map (λ days, spoilageStatus
                 (computeSpoilage Host.newYork Sample.milk
                    (Some (Sample.purchased + days * msPerDay)) (Num.of_Z 3)))
      [1; 4; 5; 8; 9]
  = [Fresh; Fresh; NearExpiry; NearExpiry; Expired].
Proof. reflexivity. Qed.

(** ** Stable insertion sort *)

Section ArraySortFacts.

Context {A : Type} (comparefn : A → A → num).

Local Abbreviation follows x y := (Num.gtb (SortCompare comparefn x y) Num.zero).

Lemma sort_insert_perm (x : A) (l : list A) : sort_insert comparefn x l ≡ₚ x :: l.
Proof.
  induction l as [|y l IH]; cbn [sort_insert Array_sort List.filter]; [reflexivity|].
  destruct (follows x y); [|reflexivity].
  rewrite IH. apply Permutation_swap.
Qed.

Lemma Array_sort_perm (l : list A) : Array_sort comparefn l ≡ₚ l.
Proof.
  induction l as [|x l IH]; cbn [sort_insert Array_sort List.filter]; [reflexivity|].
  by rewrite sort_insert_perm, IH.
Qed.

(** The comparator decides an order [le] on the elements satisfying [P]:
    an element that does not follow another is below it, one that follows
    is above. *)
Context (P : A → Prop) (le : A → A → Prop).
Context (le_trans : ∀ x y z, P x → P y → P z → le x y → le y z → le x z).
Context (not_follows_le : ∀ x y, P x → P y → follows x y = false → le x y).
Context (follows_ge : ∀ x y, P x → P y → follows x y = true → le y x).

Lemma sort_insert_sorted (x : A) (l : list A) :
  P x → Forall P l → StronglySorted le l →
  StronglySorted le (sort_insert comparefn x l).
Proof.
  intros Hx. induction l as [|y l IH]; cbn [sort_insert Array_sort List.filter]; intros HP Hs.
  { repeat constructor. }
  apply Forall_cons in HP as [Hy HP].
  apply StronglySorted_inv in Hs as [Hs Hall].
  destruct (follows x y) eqn:E.
  - constructor; [by apply IH|].
    rewrite sort_insert_perm. constructor; [by apply follows_ge|done].
  - constructor; [by constructor|].
    constructor; [by apply not_follows_le|].
    rewrite Forall_forall in *. intros z Hz.
    apply (le_trans x y z); auto.
Qed.

Lemma Array_sort_sorted (l : list A) :
  Forall P l → StronglySorted le (Array_sort comparefn l).
Proof.
  induction l as [|x l IH]; cbn [sort_insert Array_sort List.filter]; intros HP; [constructor|].
  apply Forall_cons in HP as [Hx HP].
  apply sort_insert_sorted; [done | by rewrite Array_sort_perm | by apply IH].
Qed.

(** Stability: two elements that both tie with some [z] are never
    exchanged, so the elements tied with [z] come out in their input
    order. *)
Context (tie : A → A → bool).
Context (tie_not_follows : ∀ z x y, P z → P x → P y →
           tie z x = true → tie z y = true → follows x y = false).

Lemma sort_insert_stable (z x : A) (l : list A) :
  P z → P x → Forall P l →
  List.filter (tie z) (sort_insert comparefn x l) = List.filter (tie z) (x :: l).
Proof.
  intros Hz Hx. induction l as [|y l IH]; intros HP; [done|].
  apply Forall_cons in HP as [Hy HP]. cbn [sort_insert Array_sort List.filter].
  destruct (follows x y) eqn:E; [|done].
  cbn [sort_insert Array_sort List.filter]. rewrite (IH HP). cbn [sort_insert Array_sort List.filter].
  destruct (tie z x) eqn:Ex, (tie z y) eqn:Ey; try done.
  rewrite (tie_not_follows z x y) in E; done.
Qed.

Lemma Array_sort_stable (z : A) (l : list A) :
  P z → Forall P l →
  List.filter (tie z) (Array_sort comparefn l) = List.filter (tie z) l.
Proof.
  intros Hz. induction l as [|x l IH]; intros HP; [done|].
  apply Forall_cons in HP as [Hx HP]. cbn [sort_insert Array_sort List.filter].
  rewrite sort_insert_stable; [|done|done|by rewrite Array_sort_perm].
  cbn [sort_insert Array_sort List.filter]. by rewrite (IH HP).
Qed.

(** A sorted, stable arrangement is unique: whichever stable algorithm
    the engine runs, it leaves the array as [Array_sort] does. *)
Context (tie_refl : ∀ x, P x → tie x x = true).
Context (le_antisym_tie : ∀ x y, P x → P y → le x y → le y x → tie x y = true).

Lemma stable_sorted_unique (l1 l2 : list A) :
  Forall P l1 → l1 ≡ₚ l2 →
  StronglySorted le l1 → StronglySorted le l2 →
  (∀ z, P z → List.filter (tie z) l1 = List.filter (tie z) l2) →
  l1 = l2.
Proof.
  revert l2. induction l1 as [|x l1 IH]; intros l2 HP Hperm Hs1 Hs2 Hstable.
  { by apply Permutation_nil_l in Hperm. }
  destruct l2 as [|y l2]; [by apply Permutation_nil_r in Hperm|].
  apply Forall_cons in HP as [Hx HP].
  assert (P y) as Hy.
  { assert (y ∈ x :: l1) as Hin by (rewrite Hperm; left).
    apply elem_of_cons in Hin as [->|Hin]; [done|].
    rewrite Forall_forall in HP. by apply HP. }
  apply StronglySorted_inv in Hs1 as [Hs1 Hall1].
  apply StronglySorted_inv in Hs2 as [Hs2 Hall2].
  rewrite Forall_forall in Hall1, Hall2.
  assert (x = y) as <-.
  { assert (y ∈ x :: l1) as Hy1 by (rewrite Hperm; left).
    assert (x ∈ y :: l2) as Hx2 by (rewrite <- Hperm; left).
    apply elem_of_cons in Hy1 as [->|Hy1]; [done|].
    apply elem_of_cons in Hx2 as [->|Hx2]; [done|].
    pose proof (Hstable x Hx) as Hf. cbn [List.filter] in Hf.
    rewrite (tie_refl x Hx) in Hf.
    rewrite (le_antisym_tie x y Hx Hy (Hall1 y Hy1) (Hall2 x Hx2)) in Hf.
    by injection Hf. }
  f_equal. apply IH; try done.
  - by apply Permutation_cons_inv in Hperm.
  - intros z Hz. pose proof (Hstable z Hz) as Hf. cbn [List.filter] in Hf.
    destruct (tie z x); [by injection Hf | done].
Qed.

End ArraySortFacts.

Lemma StronglySorted_lookup {A} (R : A → A → Prop) (l : list A) (i j : nat)
    (a b : A) :
  StronglySorted R l → (i < j)%nat → l !! i = Some a → l !! j = Some b → R a b.
Proof.
  intros Hs. revert i j a. induction Hs as [|x l Hs IH Hall]; intros i j a Hij Hi Hj.
  { done. }
  destruct j as [|j]; [lia|]. simpl in Hj. destruct i as [|i].
  - injection Hi as <-. rewrite Forall_forall in Hall. apply Hall.
    apply list_elem_of_lookup. eauto.
  - simpl in Hi. apply (IH i j); [lia|done..].
Qed.

(** ** The urgency order *)

Lemma statusOrder_inj (s1 s2 : SpoilageStatus) :
  statusOrder s1 = statusOrder s2 → s1 = s2.
Proof. by destruct s1, s2. Qed.

Lemma days_le_trans (a b c : option num) :
  days_le a b → days_le b c → days_le a c.
Proof.
  intros Hab Hbc. destruct Hbc as [x y Hxy|]; [|constructor].
  inversion Hab as [a' b' Hle|]; subst. constructor. by eapply Qle_trans.
Qed.

Lemma urgency_le_trans (x y z : IngredientWithSpoilage) :
  urgency_le x y → urgency_le y z → urgency_le x z.
Proof.
  unfold urgency_le. intros [Hxy | [Hxy Hd1]] [Hyz | [Hyz Hd2]].
  - left. lia.
  - left. by rewrite <- Hyz.
  - left. by rewrite Hxy.
  - right. split; [congruence | by eapply days_le_trans].
Qed.

(** The comparator on two well-formed entries, by cases *)
Lemma compareUrgency_follows (x y : IngredientWithSpoilage) :
  daysWellFormed x → daysWellFormed y →
  Num.gtb (SortCompare compareUrgency x y) Num.zero =
  if negb (statusOrder (status_of x) - statusOrder (status_of y) =? 0)
  then statusOrder (status_of y) <? statusOrder (status_of x)
  else match days_of x, days_of y with
       | None, None => false
       | None, Some _ => true
       | Some _, None => false
       | Some (Num.Fin a), Some (Num.Fin b) => Num.Qltb 0 (a - b)
       | _, _ => false
       end.
Proof.
  unfold daysWellFormed, SortCompare, compareUrgency, Num.gtb, status_of, days_of.
  intros Hx Hy.
  destruct (negb (_ =? 0)) eqn:E.
  - cbn [Num.nan_to_zero Num.of_Z]. fold (Num.of_Z (statusOrder (spoilageStatus (spoilage x))
        - statusOrder (spoilageStatus (spoilage y)))).
    unfold Num.zero. rewrite Num_ltb_of_Z.
    apply eq_true_iff_eq. rewrite !Z.ltb_lt. lia.
  - destruct (daysRemaining (spoilage x)) as [[| | |a]|],
             (daysRemaining (spoilage y)) as [[| | |b]|]; try done.
Qed.

Lemma compareUrgency_not_follows_le (x y : IngredientWithSpoilage) :
  daysWellFormed x → daysWellFormed y →
  Num.gtb (SortCompare compareUrgency x y) Num.zero = false → urgency_le x y.
Proof.
  intros Hx Hy. rewrite compareUrgency_follows by done.
  unfold urgency_le, daysWellFormed in *.
  destruct (negb (_ =? 0)) eqn:E.
  - intros H. apply Z.ltb_ge in H. apply negb_true_iff, Z.eqb_neq in E. left. lia.
  - apply negb_false_iff, Z.eqb_eq in E.
    assert (status_of x = status_of y) as Hs by (apply statusOrder_inj; lia).
    intros H. right. split; [done|].
    destruct (days_of x) as [[| | |a]|], (days_of y) as [[| | |b]|];
      try done; try constructor.
    unfold Num.Qltb in H. apply negb_false_iff, Qle_bool_iff in H.
    apply Qle_minus_iff in H. lra.
Qed.

Lemma compareUrgency_follows_ge (x y : IngredientWithSpoilage) :
  daysWellFormed x → daysWellFormed y →
  Num.gtb (SortCompare compareUrgency x y) Num.zero = true → urgency_le y x.
Proof.
  intros Hx Hy. rewrite compareUrgency_follows by done.
  unfold urgency_le, daysWellFormed in *.
  destruct (negb (_ =? 0)) eqn:E.
  - intros H. apply Z.ltb_lt in H. by left.
  - apply negb_false_iff, Z.eqb_eq in E.
    assert (status_of y = status_of x) as Hs by (apply statusOrder_inj; lia).
    intros H. right. split; [done|].
    destruct (days_of x) as [[| | |a]|], (days_of y) as [[| | |b]|];
      try done; try constructor.
    unfold Num.Qltb in H. apply negb_true_iff, Qle_bool_false in H.
    lra.
Qed.

Lemma tied_not_follows (z x y : IngredientWithSpoilage) :
  daysWellFormed z → daysWellFormed x → daysWellFormed y →
  tied z x = true → tied z y = true →
  Num.gtb (SortCompare compareUrgency x y) Num.zero = false.
Proof.
  intros Hz Hx Hy Hzx Hzy. rewrite compareUrgency_follows by done.
  unfold tied in *. apply andb_true_iff in Hzx as [Hsx Hdx].
  apply andb_true_iff in Hzy as [Hsy Hdy].
  apply Z.eqb_eq in Hsx, Hsy.
  assert ((statusOrder (status_of x) - statusOrder (status_of y) =? 0) = true)
    as -> by (apply Z.eqb_eq; lia).
  cbn [negb].
  destruct (days_of z) as [[| | |c]|], (days_of x) as [[| | |a]|],
           (days_of y) as [[| | |b]|]; try done.
  apply Qeq_bool_iff in Hdx, Hdy.
  unfold Num.Qltb. apply negb_false_iff, Qle_bool_iff. lra.
Qed.

Lemma urgency_le_antisym_tied (x y : IngredientWithSpoilage) :
  daysWellFormed x → daysWellFormed y →
  urgency_le x y → urgency_le y x → tied x y = true.
Proof.
  unfold urgency_le, tied, daysWellFormed.
  intros Hx Hy [Hlt | [Hs Hd]] [Hlt' | [Hs' Hd']];
    rewrite ?Hs, ?Hs' in *; try lia.
  rewrite Z.eqb_refl. cbn [andb].
  destruct Hd as [a b Hab|]; inversion Hd' as [b' a' Hba|]; subst; try done.
  apply Qeq_bool_iff. lra.
Qed.

Lemma tied_refl (x : IngredientWithSpoilage) : daysWellFormed x → tied x x = true.
Proof.
  unfold tied, daysWellFormed. intros Hx. rewrite Z.eqb_refl. cbn [andb].
  destruct (days_of x) as [[| | |a]|]; try done. by apply Qeq_bool_iff.
Qed.

(** What [enrichWithSpoilage] produces at a valid reference instant is
    well formed as soon as its expiry date is a valid date. *)
Lemma enrichWithSpoilage_wellFormed (rt : Runtime) (ing : Ingredient) (n : Z) :
  expiryDate (spoilage (enrichWithSpoilage rt ing (Some n))) ≠ Some None →
  daysWellFormed (enrichWithSpoilage rt ing (Some n)).
Proof.
  unfold daysWellFormed, days_of, enrichWithSpoilage. cbn [spoilage].
  destruct (computeSpoilage_cases rt ing (Some n) DEFAULT_NEAR_EXPIRY_THRESHOLD_DAYS)
    as [-> | (p & t & shelf & _ & _ & _ & ->)]; [done|].
  destruct (setDate_getDate_plus rt (Some t) shelf) as [e|] eqn:He.
  - by rewrite (liveSpoilage_days rt t shelf e n _ He).
  - unfold liveSpoilage. rewrite He. cbn. done.
Qed.


(** The order of [sortByExpiryUrgency] is the only one that is sorted by
    urgency and stable. *)
Lemma sortByExpiryUrgency_unique (l out : list IngredientWithSpoilage) :
  Forall daysWellFormed l → out ≡ₚ l →
  StronglySorted urgency_le out →
  (∀ z, daysWellFormed z → List.filter (tied z) out = List.filter (tied z) l) →
  out = sortByExpiryUrgency l.
Proof.
  intros Hwf Hperm Hsorted Hstable.
  apply (stable_sorted_unique daysWellFormed urgency_le tied).
  - apply tied_refl.
  - apply urgency_le_antisym_tied.
  - by rewrite Hperm.
  - rewrite Hperm. symmetry. apply Array_sort_perm.
  - done.
  - apply (Array_sort_sorted compareUrgency daysWellFormed urgency_le); try done.
    + intros x y z _ _ _. apply urgency_le_trans.
    + apply compareUrgency_not_follows_le.
    + apply compareUrgency_follows_ge.
  - intros z Hz. rewrite (Hstable z Hz). symmetry.
    apply (Array_sort_stable compareUrgency daysWellFormed tied); try done.
    apply tied_not_follows.
Qed.


(** ** Sorting through references *)

(** Sorting references by what they point to sorts what they point to. *)
Lemma Array_sort_Forall2 {A B} (R : A → B → Prop) (cmpA : A → A → num)
    (cmpB : B → B → num) (l : list A) (k : list B) :
  (∀ x a y b, R x a → R y b → cmpA x y = cmpB a b) →
  Forall2 R l k → Forall2 R (Array_sort cmpA l) (Array_sort cmpB k).
Proof.
  intros Hcmp Hlk. induction Hlk as [|x a l k Hxa Hlk IH]; [constructor|].
  cbn [Array_sort]. revert IH.
  generalize (Array_sort cmpA l) (Array_sort cmpB k). intros l' k' IH.
  induction IH as [|y b l' k' Hyb Htl IH]; cbn [sort_insert].
  { by repeat constructor. }
  unfold SortCompare. rewrite (Hcmp x a y b Hxa Hyb).
  destruct (Num.gtb _ _); by repeat constructor.
Qed.

(** C10. Called on an array [a] with contents [l], [sortByExpiryUrgency]
    returns a reference [r] to an array that did not exist before, whose
    contents are a permutation of [l]; [a] still has the contents [l], every
    other array is as it was, and so is every object. *)
Theorem sortByExpiryUrgency_fresh_copy (h : Heap) (a : loc) (l : list loc) :
  arrays h !! a = Some l →
  ∃ (r : loc) (h' : Heap) (out : list loc),
    sortByExpiryUrgency_ref h a = Some (r, h')
    ∧ arrays h !! r = None
    ∧ arrays h' !! r = Some out
    ∧ out ≡ₚ l
    ∧ arrays h' !! a = Some l
    ∧ (∀ b, b ≠ r → arrays h' !! b = arrays h !! b)
    ∧ objects h' = objects h.
Proof.
  intros Ha. unfold sortByExpiryUrgency_ref, spread, Array_sort_in_place.
  rewrite Ha. cbn.
  set (r := fresh (dom (arrays h))).
  assert (arrays h !! r = None) as Hr.
  { apply not_elem_of_dom, is_fresh. }
  rewrite lookup_insert_eq. cbn.
  eexists r, _, _. split; [reflexivity|]. cbn.
  rewrite insert_insert_eq.
  split; [done|]. split; [by rewrite lookup_insert_eq|].
  split; [apply Array_sort_perm|].
  split; [|split; [|done]].
  - rewrite lookup_insert_ne; [done|]. intros ->. congruence.
  - intros b Hb. by rewrite lookup_insert_ne.
Qed.

(** The returned array lists the objects in the order [sortByExpiryUrgency]
    gives to their values. *)
Lemma sortByExpiryUrgency_ref_contents (h : Heap) (a : loc) (l : list loc)
    (vs : list IngredientWithSpoilage) :
  arrays h !! a = Some l →
  Forall2 (λ x v, objects h !! x = Some v) l vs →
  ∃ r h' out,
    sortByExpiryUrgency_ref h a = Some (r, h')
    ∧ arrays h' !! r = Some out
    ∧ Forall2 (λ x v, objects h' !! x = Some v) out (sortByExpiryUrgency vs).
Proof.
  intros Ha Hvs. unfold sortByExpiryUrgency_ref, spread, Array_sort_in_place.
  rewrite Ha. cbn. rewrite lookup_insert_eq. cbn.
  eexists _, _, _. split; [reflexivity|]. cbn.
  split; [by rewrite lookup_insert_eq|].
  apply Array_sort_Forall2; [|done].
  intros x v y v' Hx Hy. unfold compareUrgency_ref. cbn. by rewrite Hx, Hy.
Qed.

Lemma sortByExpiryUrgency_fresh_copy_witness :
  arrays Sample.kitchen !! 1%positive = Some [10; 11; 12; 13; 14]%positive
  ∧ ∃ r h' out,
      sortByExpiryUrgency_ref Sample.kitchen 1%positive = Some (r, h')
      ∧ arrays Sample.kitchen !! r = None
      ∧ arrays h' !! r = Some out
      ∧ out ≡ₚ [10; 11; 12; 13; 14]%positive
      ∧ arrays h' !! 1%positive = Some [10; 11; 12; 13; 14]%positive
      ∧ (∀ b, b ≠ r → arrays h' !! b = arrays Sample.kitchen !! b)
      ∧ objects h' = objects Sample.kitchen.
Proof.
  split; [reflexivity|].
  apply (sortByExpiryUrgency_fresh_copy Sample.kitchen 1%positive).
  reflexivity.
Defined.

Example kitchen_sorted :
  (sortByExpiryUrgency_ref Sample.kitchen 1%positive
     ≫= λ '(r, h'), arrays h' !! r)
  = Some [14; 11; 13; 12; 10]%positive.
Proof. vm_compute. reflexivity. Qed.

(** Sorting in place, without the copy, does change the caller's array. *)
Example sort_in_place_mutates :
  (Array_sort_in_place compareUrgency_ref Sample.kitchen 1%positive
     ≫= λ '(_, h'), arrays h' !! 1%positive)
  = Some [14; 11; 13; 12; 10]%positive.
Proof. vm_compute. reflexivity. Qed.

(** ** Requests to the store *)


(** On an available store a request is performed, on a world that
    differs from the current one by the record of the request only, as far
    as the table and the clock go. *)
Lemma request_available {A} (r : Request) (perform : Async A) (w : World) :
  available w →
  ∃ w0, request r perform w = perform w0
        ∧ table w0 = table w ∧ clock w0 = clock w ∧ available w0.
Proof.
  unfold available, request. intros Hav. cbn.
  destruct (faults w) as [|[e|] rest] eqn:Hf.
  - eexists. split; [reflexivity|]. cbn. by rewrite Hf.
  - by apply Forall_cons in Hav as [? _].
  - apply Forall_cons in Hav as [_ Hav]. by eexists.
Qed.

Lemma table_get_available (key : string) (w : World) :
  available w →
  ∃ w1, table_get key w = (Fulfilled (table w !! key), w1)
        ∧ table w1 = table w ∧ clock w1 = clock w ∧ available w1.
Proof.
  intros Hav. unfold table_get.
  destruct (request_available (ReqGet key)
              (λ w, (Fulfilled (table w !! key), w)) w Hav)
    as (w0 & -> & Ht & Hc & Hav0).
  exists w0. by rewrite Ht.
Qed.

Lemma table_update_available (key : string) (changes : PartialIngredient.t)
    (w : World) :
  available w →
  ∃ w1, table_update key changes w = (Fulfilled tt, w1)
        ∧ table w1 = alter (applyChanges changes) key (table w)
        ∧ clock w1 = clock w ∧ available w1.
Proof.
  intros Hav. unfold table_update.
  destruct (request_available (ReqUpdate key)
              (λ w, (Fulfilled tt,
                     set_table (alter (applyChanges changes) key (table w)) w))
              w Hav)
    as (w0 & -> & Ht & Hc & Hav0).
  eexists. split; [reflexivity|]. cbn. by rewrite Ht.
Qed.


Lemma validQuantity_guards (x : num) :
  validQuantity x → Num.leb x Num.zero = false ∧ Num.isFinite x = true.
Proof.
  intros (q & -> & Hq). split; [|done]. cbn.
  destruct (Qle_bool q (inject_Z 0)) eqn:E; [|done].
  apply Qle_bool_iff in E. exfalso. by apply (Qlt_not_le _ _ Hq).
Qed.

(** ** Claims on the buy action *)

(** C5. When [purchasedQty] is zero, negative or not a finite number
    ([NaN], [+Infinity], [-Infinity]), [buyIngredient] fulfils with a failure
    result (success false, a message, the three data fields null) and leaves
    the world as it found it: the table is unchanged and no request was
    issued to the store. *)
Theorem buyIngredient_rejects_bad_quantity (rt : Runtime)
    (input : BuyIngredientInput) (w : World) :
  purchasedQty input = Num.NaN
  ∨ purchasedQty input = Num.PInf
  ∨ purchasedQty input = Num.NInf
  ∨ (∃ q : Q, purchasedQty input = Num.Fin q ∧ (q <= 0)%Q) →
  ∃ message : string,
    message ≠ EmptyString
    ∧ buyIngredient rt input w = (Fulfilled (buyFailure message), w).
Proof.
  unfold buyIngredient.
  intros [-> | [-> | [-> | (q & -> & Hq)]]]; cbn.
  - eexists; split; [|reflexivity]; discriminate.
  - eexists; split; [|reflexivity]; discriminate.
  - eexists; split; [|reflexivity]; discriminate.
  - apply Qle_bool_iff in Hq. change (inject_Z 0) with 0%Q. rewrite Hq.
    eexists; split; [|reflexivity]; discriminate.
Qed.

Lemma buyIngredient_rejects_bad_quantity_witness :
  purchasedQty {| ingredientId := "milk"; purchasedQty := Num.NaN |} = Num.NaN
  ∧ ∃ message,
      message ≠ EmptyString
      ∧ buyIngredient Host.utc {| ingredientId := "milk"; purchasedQty := Num.NaN |}
          Sample.store
        = (Fulfilled (buyFailure message), Sample.store).
Proof.
  split; [reflexivity|].
  apply (buyIngredient_rejects_bad_quantity Host.utc
           {| ingredientId := "milk"; purchasedQty := Num.NaN |} Sample.store).
  left. reflexivity.
Defined.

Example buyIngredient_zero_and_infinite :
  map (λ qty, buyIngredient Host.utc {| ingredientId := "milk"; purchasedQty := qty |}
                Sample.store)
      [Num.of_Z 0; Num.of_Z (-2); Num.PInf]
  = [(Fulfilled (buyFailure "Purchase quantity must be greater than 0"), Sample.store);
     (Fulfilled (buyFailure "Purchase quantity must be greater than 0"), Sample.store);
     (Fulfilled (buyFailure "Purchase quantity must be a valid number"), Sample.store)].
Proof. reflexivity. Qed.

(** The transaction of the buy action on an id the table does not have:
    it is rejected, by the store or with "Ingredient not found", and the
    table is as before. *)
Lemma buyTransaction_unknown_id (rt : Runtime) (key : string) (qty : num)
    (w : World) :
  table w !! key = None →
  ∃ e w', transaction (buyTransactionBody rt key qty) w = (Rejected e, w')
          ∧ table w' = table w.
Proof.
  intros Hkey. unfold transaction, buyTransactionBody, table_get.
  unfold mbind, Async_bind, bind, request. cbn.
  destruct (faults w) as [|[e|] rest]; cbn; rewrite ?Hkey; cbn;
    by eexists _, _.
Qed.

(** C6. For a valid quantity and an [ingredientId] that is not in the
    table, [buyIngredient] fulfils with a failure result (success false, a
    message, the three data fields null) and the table after the call is the
    table before it, whatever the store does to the requests. *)
Theorem buyIngredient_unknown_id (rt : Runtime) (input : BuyIngredientInput)
    (w : World) :
  validQuantity (purchasedQty input) →
  table w !! ingredientId input = None →
  ∃ (r : BuyIngredientResult) (w' : World),
    buyIngredient rt input w = (Fulfilled r, w')
    ∧ success r = false
    ∧ error r ≠ None
    ∧ updatedIngredient r = None
    ∧ previousStockQty r = None
    ∧ newStockQty r = None
    ∧ table w' = table w.
Proof.
  intros Hq Hkey. apply validQuantity_guards in Hq as [Hle Hfin].
  destruct (buyTransaction_unknown_id rt (ingredientId input)
              (purchasedQty input) w Hkey) as (e & w' & Htx & Htable).
  unfold buyIngredient. rewrite Hle, Hfin. cbn [negb].
  unfold try_catch, mbind, Async_bind, bind. rewrite Htx. cbn.
  eexists _, _. by repeat split.
Qed.

Lemma buyIngredient_unknown_id_witness :
  validQuantity (Num.of_Z 5)
  ∧ ∃ r w',
      buyIngredient Host.utc {| ingredientId := "saffron"; purchasedQty := Num.of_Z 5 |}
        Sample.store = (Fulfilled r, w')
      ∧ success r = false
      ∧ error r ≠ None
      ∧ updatedIngredient r = None
      ∧ previousStockQty r = None
      ∧ newStockQty r = None
      ∧ table w' = table Sample.store.
Proof.
  assert (validQuantity (Num.of_Z 5)) as Hq.
  { exists 5%Q. split; reflexivity. }
  split; [exact Hq|].
  apply (buyIngredient_unknown_id Host.utc
           {| ingredientId := "saffron"; purchasedQty := Num.of_Z 5 |}
           Sample.store Hq).
  reflexivity.
Defined.

Example buyIngredient_not_found :
  (buyIngredient Host.utc {| ingredientId := "saffron"; purchasedQty := Num.of_Z 5 |}
     Sample.store).1
  = Fulfilled (buyFailure "Ingredient not found").
Proof. reflexivity. Qed.



(** ** Claims on the CRUD operations *)

(** C9. On a store that performs its requests: [updateIngredient] on an
    id that is not in the table fulfils with null and leaves the table as it
    is; on an id that is in the table it writes exactly the fields present
    in the partial input ([name] and [unit] trimmed, [stockQty],
    [shelfLifeDays]), keeps the others, [id] and [purchasedAt] included,
    leaves the other rows alone, and fulfils with the row read back. *)
Theorem updateIngredient_frame (key : string) (data : PartialFormData.t)
    (w : World) :
  available w →
  (table w !! key = None →
   ∃ w', updateIngredient key data w = (Fulfilled None, w')
         ∧ table w' = table w)
  ∧ (∀ existing : Ingredient,
       table w !! key = Some existing →
       ∃ (w' : World) (updated : Ingredient),
         updateIngredient key data w = (Fulfilled (Some updated), w')
         ∧ table w' !! key = Some updated
         ∧ (∀ other, other ≠ key → table w' !! other = table w !! other)
         ∧ id updated = id existing
         ∧ purchasedAt updated = purchasedAt existing
         ∧ name updated = from_option trim (name existing) (PartialFormData.name data)
         ∧ unit updated = from_option trim (unit existing) (PartialFormData.unit data)
         ∧ stockQty updated
           = default (stockQty existing) (PartialFormData.stockQty data)
         ∧ shelfLifeDays updated
           = from_option Some (shelfLifeDays existing)
               (PartialFormData.shelfLifeDays data)).
Proof.
  intros Hav.
  destruct (table_get_available key w Hav) as (w1 & Hget1 & Ht1 & _ & Hav1).
  split.
  - intros Hkey. exists w1. split; [|done].
    unfold updateIngredient, mbind, Async_bind, bind. by rewrite Hget1, Hkey.
  - intros existing Hkey.
    set (updates :=
      {| PartialIngredient.name := trim <$> PartialFormData.name data;
         PartialIngredient.unit := trim <$> PartialFormData.unit data;
         PartialIngredient.stockQty := PartialFormData.stockQty data;
         PartialIngredient.shelfLifeDays := PartialFormData.shelfLifeDays data;
         PartialIngredient.purchasedAt := None |}).
    destruct (table_update_available key updates w1 Hav1)
      as (w2 & Hupd & Ht2 & _ & Hav2).
    destruct (table_get_available key w2 Hav2) as (w3 & Hget2 & Ht3 & _ & _).
    rewrite Ht2, Ht1, lookup_alter_eq, Hkey in Hget2. cbn in Hget2.
    exists w3, (applyChanges updates existing).
    split.
    { unfold updateIngredient, mbind, Async_bind, bind.
      rewrite Hget1, Hkey. fold updates. by rewrite Hupd, Hget2. }
    rewrite Ht3, Ht2, Ht1.
    split; [by rewrite lookup_alter_eq, Hkey|].
    split; [intros other Hne; by rewrite lookup_alter_ne|].
    destruct data as [[n|] [u|] [q|] [d|]]; by repeat split.
Qed.

Lemma updateIngredient_frame_witness :
  available Sample.store
  ∧ (∃ w', updateIngredient "saffron"
             {| PartialFormData.name := None;
                PartialFormData.unit := None;
                PartialFormData.stockQty := Some (Num.of_Z 10);
                PartialFormData.shelfLifeDays := None |} Sample.store
           = (Fulfilled None, w')
           ∧ table w' = table Sample.store).
Proof.
  split; [constructor|].
  apply (updateIngredient_frame "saffron"
           {| PartialFormData.name := None;
              PartialFormData.unit := None;
              PartialFormData.stockQty := Some (Num.of_Z 10);
              PartialFormData.shelfLifeDays := None |} Sample.store);
    [constructor | reflexivity].
Defined.

Example updateIngredient_renames_milk :
  (updateIngredient "milk"
     {| PartialFormData.name := Some "  Whole milk  "%string;
        PartialFormData.unit := None;
        PartialFormData.stockQty := None;
        PartialFormData.shelfLifeDays := None |} Sample.store).1
  = Fulfilled (Some
      {| id := "milk";
         name := "Whole milk";
         unit := "L";
         stockQty := Num.of_Z 2;
         shelfLifeDays := Some (Num.of_Z 7);
         purchasedAt := Some "2024-10-28T16:00:00.000Z"%string |}).
Proof. reflexivity. Qed.

(** ** The boundary of the action layer *)




Example createIngredient_trims :
  (createIngredient Sample.eggs Sample.store).1
  = Fulfilled
      {| id := "000000000000";
         name := "Eggs";
         unit := "pieces";
         stockQty := Num.of_Z 12;
         shelfLifeDays := Some (Num.of_Z 21);
         purchasedAt := None |}.
Proof. reflexivity. Qed.

Example deleteIngredient_present_and_absent :
  (deleteIngredient "milk" Sample.store).1 = Fulfilled true
  ∧ table (deleteIngredient "milk" Sample.store).2 !! "milk"%string = None
  ∧ (deleteIngredient "saffron" Sample.store).1 = Fulfilled false.
Proof. by vm_compute. Qed.

(** * Further properties *)

(** ** The engine *)

(** X1. Whatever the ingredient, the reference date and the threshold, the
    three fields of the result of [computeSpoilage] go together: the status
    is Unknown exactly when [daysRemaining] is null, and exactly when
    [expiryDate] is null. *)
Theorem computeSpoilage_unknown_iff_null (rt : Runtime) (ing : Ingredient)
    (now : Date) (thr : num) :
  (spoilageStatus (computeSpoilage rt ing now thr) = Unknown
   ↔ daysRemaining (computeSpoilage rt ing now thr) = None)
  ∧ (spoilageStatus (computeSpoilage rt ing now thr) = Unknown
     ↔ expiryDate (computeSpoilage rt ing now thr) = None).
Proof.
  destruct (computeSpoilage_cases rt ing now thr)
    as [-> | (p & t & shelf & _ & _ & _ & ->)]; [done|].
  unfold liveSpoilage. cbn.
  split; split; try done; by repeat case_match.
Qed.

(** ** Filtering and counting by status *)

Lemma summary_get_increment (s s' : SpoilageStatus) (m : Summary.t) :
  summary_get s (summary_increment s' m)
  = summary_get s m + (if bool_decide (s' = s) then 1 else 0).
Proof. destruct s, s'; case_bool_decide; try done; cbn; lia. Qed.

Lemma summary_fold_get (s : SpoilageStatus) (l : list IngredientWithSpoilage)
    (m : Summary.t) :
  summary_get s
    (fold_left (λ summary ing,
                  summary_increment (spoilageStatus (spoilage ing)) summary) l m)
  = summary_get s m + Z.of_nat (length (filterBySpoilageStatus l s)).
Proof.
  revert m. induction l as [|x l IH]; intros m; cbn [fold_left].
  { cbn. lia. }
  rewrite IH, summary_get_increment. unfold filterBySpoilageStatus.
  cbn [List.filter]. destruct (bool_decide _); cbn [length]; lia.
Qed.

Lemma Summary_eq (m1 m2 : Summary.t) :
  (∀ s, summary_get s m1 = summary_get s m2) → m1 = m2.
Proof.
  intros H. destruct m1, m2.
  pose proof (H Fresh). pose proof (H NearExpiry).
  pose proof (H Expired). pose proof (H Unknown). cbn in *. congruence.
Qed.

Lemma filterBySpoilageStatus_perm (l1 l2 : list IngredientWithSpoilage)
    (s : SpoilageStatus) :
  l1 ≡ₚ l2 → filterBySpoilageStatus l1 s ≡ₚ filterBySpoilageStatus l2 s.
Proof.
  unfold filterBySpoilageStatus. induction 1 as [|x l1 l2 _ IH|x y l|l1 l2 l3 _ IH1 _ IH2];
    cbn [List.filter].
  - reflexivity.
  - destruct (bool_decide _); by rewrite IH.
  - repeat destruct (bool_decide _); try reflexivity. apply Permutation_swap.
  - by rewrite IH1.
Qed.

Lemma summary_get_getSpoilageSummary (l : list IngredientWithSpoilage)
    (s : SpoilageStatus) :
  summary_get s (getSpoilageSummary l)
  = Z.of_nat (length (filterBySpoilageStatus l s)).
Proof.
  unfold getSpoilageSummary. rewrite summary_fold_get. by destruct s.
Qed.

(** X2. [getSpoilageSummary] counts, for each of the four statuses, the
    entries that [filterBySpoilageStatus] selects for it, and its four
    counts add up to the number of entries. *)
Theorem getSpoilageSummary_counts (l : list IngredientWithSpoilage) :
  (∀ s, summary_get s (getSpoilageSummary l)
        = Z.of_nat (length (filterBySpoilageStatus l s)))
  ∧ Summary.Fresh (getSpoilageSummary l)
    + Summary.NearExpiry (getSpoilageSummary l)
    + Summary.Expired (getSpoilageSummary l)
    + Summary.Unknown (getSpoilageSummary l)
    = Z.of_nat (length l).
Proof.
  pose proof (λ s, summary_get_getSpoilageSummary l s) as Hget.
  split; [exact Hget|].
  pose proof (Hget Fresh) as HF. pose proof (Hget NearExpiry) as HN.
  pose proof (Hget Expired) as HE. pose proof (Hget Unknown) as HU.
  cbn [summary_get] in *. rewrite HF, HN, HE, HU.
  clear. unfold filterBySpoilageStatus.
  induction l as [|x l IH]; [done|]. cbn [List.filter length].
  destruct (spoilageStatus (spoilage x)) eqn:E;
    repeat case_bool_decide; try done; cbn [length]; lia.
Qed.

(** X3. Sorting by urgency does not change the summary: the counts shown
    for a list are those of the list in any order [sortByExpiryUrgency]
    leaves it. *)
Theorem getSpoilageSummary_sorted (l : list IngredientWithSpoilage) :
  getSpoilageSummary (sortByExpiryUrgency l) = getSpoilageSummary l.
Proof.
  apply Summary_eq. intros s.
  rewrite !summary_get_getSpoilageSummary.
  f_equal. apply Permutation_length, filterBySpoilageStatus_perm.
  apply Array_sort_perm.
Qed.

(** ** Sorting and filtering together *)

Lemma List_filter_perm {A} (f : A → bool) (l1 l2 : list A) :
  l1 ≡ₚ l2 → List.filter f l1 ≡ₚ List.filter f l2.
Proof.
  induction 1 as [|x l1 l2 _ IH|x y l|l1 l2 l3 _ IH1 _ IH2]; cbn [List.filter].
  - reflexivity.
  - destruct (f x); by rewrite IH.
  - destruct (f x), (f y); try reflexivity. apply Permutation_swap.
  - by rewrite IH1.
Qed.

Lemma List_filter_comm {A} (f g : A → bool) (l : list A) :
  List.filter f (List.filter g l) = List.filter g (List.filter f l).
Proof.
  induction l as [|x l IH]; [done|]. cbn [List.filter].
  destruct (f x) eqn:Ef, (g x) eqn:Eg; cbn [List.filter];
    rewrite ?Ef, ?Eg, IH; done.
Qed.

Lemma List_filter_Forall {A} (P : A → Prop) (f : A → bool) (l : list A) :
  Forall P l → Forall P (List.filter f l).
Proof.
  induction 1 as [|x l Hx _ IH]; cbn [List.filter]; [constructor|].
  destruct (f x); [by constructor | done].
Qed.

Lemma List_filter_StronglySorted {A} (R : A → A → Prop) (f : A → bool)
    (l : list A) :
  StronglySorted R l → StronglySorted R (List.filter f l).
Proof.
  induction 1 as [|x l _ IH Hall]; cbn [List.filter]; [constructor|].
  destruct (f x); [|done]. constructor; [done|].
  by apply List_filter_Forall.
Qed.

Lemma sortByExpiryUrgency_StronglySorted (l : list IngredientWithSpoilage) :
  Forall daysWellFormed l → StronglySorted urgency_le (sortByExpiryUrgency l).
Proof.
  intros Hwf.
  apply (Array_sort_sorted compareUrgency daysWellFormed urgency_le); try done.
  - intros x y z _ _ _. apply urgency_le_trans.
  - apply compareUrgency_not_follows_le.
  - apply compareUrgency_follows_ge.
Qed.

Lemma sortByExpiryUrgency_stable (l : list IngredientWithSpoilage)
    (z : IngredientWithSpoilage) :
  Forall daysWellFormed l → daysWellFormed z →
  List.filter (tied z) (sortByExpiryUrgency l) = List.filter (tied z) l.
Proof.
  intros Hwf Hz.
  apply (Array_sort_stable compareUrgency daysWellFormed tied); try done.
  apply tied_not_follows.
Qed.

Lemma sortByExpiryUrgency_Forall (P : IngredientWithSpoilage → Prop)
    (l : list IngredientWithSpoilage) :
  Forall P l → Forall P (sortByExpiryUrgency l).
Proof. intros H. unfold sortByExpiryUrgency. by rewrite Array_sort_perm. Qed.

(** Selecting entries before or after the sort gives the same list. *)
Lemma sortByExpiryUrgency_filter (f : IngredientWithSpoilage → bool)
    (l : list IngredientWithSpoilage) :
  Forall daysWellFormed l →
  List.filter f (sortByExpiryUrgency l) = sortByExpiryUrgency (List.filter f l).
Proof.
  intros Hwf.
  apply sortByExpiryUrgency_unique.
  - by apply List_filter_Forall.
  - apply List_filter_perm, Array_sort_perm.
  - by apply List_filter_StronglySorted, sortByExpiryUrgency_StronglySorted.
  - intros z Hz.
    rewrite List_filter_comm, sortByExpiryUrgency_stable by done.
    apply List_filter_comm.
Qed.

Lemma filterBySpoilageStatus_later (s : SpoilageStatus)
    (x : IngredientWithSpoilage) (l : list IngredientWithSpoilage) :
  Forall (urgency_le x) l → statusOrder s < statusOrder (status_of x) →
  filterBySpoilageStatus l s = [].
Proof.
  intros Hall Hs. unfold filterBySpoilageStatus.
  induction Hall as [|y l Hy _ IH]; [done|]. cbn [List.filter].
  case_bool_decide as E; [|done]. exfalso.
  unfold urgency_le, status_of in *. rewrite <- E in Hs.
  destruct Hy as [Hlt | [Heq _]]; [lia | rewrite Heq in Hs; lia].
Qed.

(** A list in urgency order is its four status buckets one after the
    other. *)
Lemma urgency_sorted_buckets (l : list IngredientWithSpoilage) :
  StronglySorted urgency_le l →
  l = filterBySpoilageStatus l Expired ++ filterBySpoilageStatus l NearExpiry
      ++ filterBySpoilageStatus l Fresh ++ filterBySpoilageStatus l Unknown.
Proof.
  induction 1 as [|x l _ IH Hall]; [done|].
  pose proof (filterBySpoilageStatus_later Expired x l Hall) as HE.
  pose proof (filterBySpoilageStatus_later NearExpiry x l Hall) as HN.
  pose proof (filterBySpoilageStatus_later Fresh x l Hall) as HF.
  unfold filterBySpoilageStatus in *. cbn [List.filter].
  unfold status_of in *.
  destruct (spoilageStatus (spoilage x)) eqn:E;
    repeat case_bool_decide; try done; cbn [statusOrder] in *.
  - rewrite HE, HN by lia. cbn [app]. f_equal.
    rewrite IH at 1. by rewrite HE, HN by lia.
  - rewrite HE by lia. cbn [app]. f_equal.
    rewrite IH at 1. by rewrite HE by lia.
  - cbn [app]. f_equal. exact IH.
  - rewrite HE, HN, HF by lia. cbn [app]. f_equal.
    rewrite IH at 1. by rewrite HE, HN, HF by lia.
Qed.

Lemma pantry_wellFormed : Forall daysWellFormed Sample.pantry.
Proof. vm_compute. repeat constructor. Qed.

(** X4. On enriched entries, filtering by status and sorting by urgency
    commute: the entries of one status in the sorted list are the sorted
    entries of that status. *)
Theorem filterBySpoilageStatus_sorted (l : list IngredientWithSpoilage)
    (s : SpoilageStatus) :
  Forall daysWellFormed l →
  filterBySpoilageStatus (sortByExpiryUrgency l) s
  = sortByExpiryUrgency (filterBySpoilageStatus l s).
Proof. intros Hwf. by apply sortByExpiryUrgency_filter. Qed.

Lemma filterBySpoilageStatus_sorted_witness :
  Forall daysWellFormed Sample.pantry
  ∧ map (λ x, id (base x))
        (filterBySpoilageStatus (sortByExpiryUrgency Sample.pantry) NearExpiry)
    = ["milk"; "cream"]%string
  ∧ filterBySpoilageStatus (sortByExpiryUrgency Sample.pantry) NearExpiry
    = sortByExpiryUrgency (filterBySpoilageStatus Sample.pantry NearExpiry).
Proof.
  pose proof pantry_wellFormed as Hwf.
  split; [exact Hwf|]. split; [reflexivity|].
  apply (filterBySpoilageStatus_sorted Sample.pantry NearExpiry Hwf).
Defined.

(** X5. Sorting a sorted list changes nothing: on enriched entries
    [sortByExpiryUrgency] is idempotent. *)
Theorem sortByExpiryUrgency_idempotent (l : list IngredientWithSpoilage) :
  Forall daysWellFormed l →
  sortByExpiryUrgency (sortByExpiryUrgency l) = sortByExpiryUrgency l.
Proof.
  intros Hwf. symmetry. apply sortByExpiryUrgency_unique.
  - by apply sortByExpiryUrgency_Forall.
  - reflexivity.
  - by apply sortByExpiryUrgency_StronglySorted.
  - done.
Qed.

Lemma sortByExpiryUrgency_idempotent_witness :
  Forall daysWellFormed Sample.pantry
  ∧ sortByExpiryUrgency (sortByExpiryUrgency Sample.pantry)
    = sortByExpiryUrgency Sample.pantry.
Proof.
  pose proof pantry_wellFormed as Hwf.
  split; [exact Hwf|].
  apply (sortByExpiryUrgency_idempotent Sample.pantry Hwf).
Defined.

(** X6. On enriched entries the sorted list is made of four blocks, in the
    order Expired, NearExpiry, Fresh, Unknown, each block being the entries
    of that status sorted among themselves. *)
Theorem sortByExpiryUrgency_buckets (l : list IngredientWithSpoilage) :
  Forall daysWellFormed l →
  sortByExpiryUrgency l
  = sortByExpiryUrgency (filterBySpoilageStatus l Expired)
    ++ sortByExpiryUrgency (filterBySpoilageStatus l NearExpiry)
    ++ sortByExpiryUrgency (filterBySpoilageStatus l Fresh)
    ++ sortByExpiryUrgency (filterBySpoilageStatus l Unknown).
Proof.
  intros Hwf.
  rewrite (urgency_sorted_buckets (sortByExpiryUrgency l))
    by (by apply sortByExpiryUrgency_StronglySorted).
  unfold filterBySpoilageStatus at 1 2 3 4.
  rewrite !sortByExpiryUrgency_filter by done.
  reflexivity.
Qed.

Lemma sortByExpiryUrgency_buckets_witness :
  Forall daysWellFormed Sample.pantry
  ∧ sortByExpiryUrgency Sample.pantry
    = sortByExpiryUrgency (filterBySpoilageStatus Sample.pantry Expired)
      ++ sortByExpiryUrgency (filterBySpoilageStatus Sample.pantry NearExpiry)
      ++ sortByExpiryUrgency (filterBySpoilageStatus Sample.pantry Fresh)
      ++ sortByExpiryUrgency (filterBySpoilageStatus Sample.pantry Unknown).
Proof.
  pose proof pantry_wellFormed as Hwf.
  split; [exact Hwf|].
  apply (sortByExpiryUrgency_buckets Sample.pantry Hwf).
Defined.

(** ** The store under any behaviour *)

(** A request is either rejected before it has any effect, or performed on
    a world with the same table, clock and identifier source. *)
Lemma request_cases {A} (r : Request) (perform : Async A) (w : World) :
  (∃ e w1, request r perform w = (Rejected e, w1) ∧ table w1 = table w)
  ∨ (∃ w0, request r perform w = perform w0
           ∧ table w0 = table w ∧ clock w0 = clock w
           ∧ uuids w0 = uuids w ∧ uuidsIssued w0 = uuidsIssued w).
Proof.
  unfold request. cbn.
  destruct (faults w) as [|[e|] rest]; [right|left|right];
    repeat eexists; reflexivity.
Qed.

Lemma scan_cases {A} (perform : Async A) (w : World) :
  (∃ e w1, scan perform w = (Rejected e, w1) ∧ table w1 = table w)
  ∨ (∃ w0, scan perform w = perform w0
           ∧ table w0 = table w ∧ clock w0 = clock w).
Proof.
  unfold scan.
  destruct (faults w) as [|[e|] rest]; [right|left|right];
    repeat eexists; reflexivity.
Qed.

(** The two ways [buyIngredient] can end, whatever the store does. *)
Lemma buyIngredient_outcome (rt : Runtime) (input : BuyIngredientInput)
    (w : World) :
  ∃ r w', buyIngredient rt input w = (Fulfilled r, w')
    ∧ ((∃ message, r = buyFailure message ∧ table w' = table w)
       ∨ (∃ ing,
            table w !! ingredientId input = Some ing
            ∧ r = {| success := true;
                     error := None;
                     updatedIngredient :=
                       Some (bought rt (clock w) (purchasedQty input) ing);
                     previousStockQty := Some (stockQty ing);
                     newStockQty :=
                       Some (Num.add (stockQty ing) (purchasedQty input)) |}
            ∧ table w'
              = <[ingredientId input :=
                    bought rt (clock w) (purchasedQty input) ing]> (table w))).
Proof.
  destruct input as [key qty]. unfold buyIngredient. cbn [ingredientId purchasedQty].
  destruct (Num.leb qty Num.zero).
  { eexists _, _. split; [reflexivity|]. left. by eexists. }
  destruct (negb (Num.isFinite qty)).
  { eexists _, _. split; [reflexivity|]. left. by eexists. }
  unfold try_catch, transaction, buyTransactionBody, table_get, table_update.
  unfold newDate_now, mbind, Async_bind, bind.
  (* the first read *)
  destruct (request_cases (ReqGet key) (λ w, (Fulfilled (table w !! key), w)) w)
    as [(e & w1 & -> & Ht1) | (w1 & -> & Ht1 & Hc1 & _)].
  { eexists _, _. split; [reflexivity|]. left. by eexists. }
  rewrite Ht1. destruct (table w !! key) as [ing|] eqn:Hkey.
  2:{ eexists _, _. split; [reflexivity|]. left. by eexists. }
  cbn. rewrite Hc1.
  (* the write *)
  match goal with
  | |- context [request (ReqUpdate key) ?p w1] =>
      destruct (request_cases (ReqUpdate key) p w1)
        as [(e & w2 & -> & Ht2) | (w2 & -> & Ht2 & Hc2 & _)]
  end.
  { eexists _, _. split; [reflexivity|]. left. by eexists. }
  cbn.
  (* the second read *)
  match goal with
  | |- context [request (ReqGet key) ?p ?w3] =>
      destruct (request_cases (ReqGet key) p w3)
        as [(e & w4 & -> & Ht4) | (w4 & -> & Ht4 & Hc4 & _)]
  end.
  { eexists _, _. split; [reflexivity|]. left. by eexists. }
  cbn in Ht4. cbn. rewrite Ht4, Ht2, Ht1, lookup_alter_eq, Hkey. cbn.
  (* the commit *)
  match goal with
  | |- context [request ReqCommit ?p w4] =>
      destruct (request_cases ReqCommit p w4)
        as [(e & w5 & -> & Ht5) | (w5 & -> & Ht5 & _)]
  end.
  { eexists _, _. split; [reflexivity|]. left. by eexists. }
  cbn. eexists _, _. split; [reflexivity|]. right. exists ing.
  split; [done|]. split.
  - reflexivity.
  - rewrite Ht5, Ht4, Ht2, Ht1. cbn.
    apply map_eq. intros k. destruct (decide (k = key)) as [->|Hne].
    + by rewrite lookup_alter_eq, lookup_insert_eq, Hkey.
    + by rewrite lookup_alter_ne, lookup_insert_ne.
Qed.




(** ** Creating, reading and deleting rows *)

Lemma scan_available {A} (perform : Async A) (w : World) :
  available w →
  ∃ w0, scan perform w = perform w0
        ∧ table w0 = table w ∧ clock w0 = clock w ∧ available w0.
Proof.
  unfold available, scan. intros Hav.
  destruct (faults w) as [|[e|] rest] eqn:Hf.
  - exists w. by rewrite Hf.
  - by apply Forall_cons in Hav as [? _].
  - apply Forall_cons in Hav as [_ Hav]. by eexists.
Qed.

Lemma table_delete_available (key : string) (w : World) :
  available w →
  ∃ w1, table_delete key w = (Fulfilled tt, w1)
        ∧ table w1 = delete key (table w)
        ∧ clock w1 = clock w ∧ available w1.
Proof.
  intros Hav. unfold table_delete.
  destruct (request_available (ReqDelete key)
              (λ w, (Fulfilled tt, set_table (delete key (table w)) w)) w Hav)
    as (w0 & -> & Ht & Hc & Hav0).
  eexists. split; [reflexivity|]. cbn. by rewrite Ht.
Qed.

Lemma table_add_available (item : Ingredient) (w : World) :
  available w → table w !! id item = None →
  ∃ w1, table_add item w = (Fulfilled (id item), w1)
        ∧ table w1 = <[id item := item]> (table w)
        ∧ clock w1 = clock w ∧ available w1.
Proof.
  intros Hav Hkey. unfold table_add.
  match goal with
  | |- context [request _ ?p w] =>
      destruct (request_available (ReqAdd (id item)) p w Hav)
        as (w0 & -> & Ht & Hc & Hav0)
  end.
  cbn beta. rewrite Ht, Hkey. eexists. split; [reflexivity|]. by cbn.
Qed.

Lemma table_count_available (w : World) :
  available w →
  ∃ w1, table_count w = (Fulfilled (Z.of_nat (size (table w))), w1)
        ∧ table w1 = table w ∧ available w1.
Proof.
  intros Hav. unfold table_count.
  match goal with
  | |- context [scan ?p w] =>
      destruct (scan_available p w Hav) as (w0 & -> & Ht & _ & Hav0)
  end.
  cbn beta. exists w0. by rewrite Ht.
Qed.

Lemma createIngredient_available (data : IngredientFormData.t) (w : World) :
  available w → table w !! uuids w (uuidsIssued w) = None →
  ∃ w', createIngredient data w
        = (Fulfilled (created (uuids w (uuidsIssued w)) data), w')
        ∧ table w'
          = <[uuids w (uuidsIssued w) := created (uuids w (uuidsIssued w)) data]>
              (table w)
        ∧ clock w' = clock w ∧ available w'.
Proof.
  intros Hav Hnew. unfold createIngredient, uuidv4, mbind, Async_bind, bind.
  fold (created (uuids w (uuidsIssued w)) data).
  set (w0 := {| table := table w; faults := faults w; requests := requests w;
                clock := clock w; uuids := uuids w;
                uuidsIssued := S (uuidsIssued w) |}).
  destruct (table_add_available (created (uuids w (uuidsIssued w)) data) w0)
    as (w1 & Hadd & Ht & Hc & Hav1); [done|done|].
  rewrite Hadd. by exists w1.
Qed.

Lemma deleteIngredient_available (key : string) (w : World) :
  available w →
  ∃ w', deleteIngredient key w
        = (Fulfilled (bool_decide (is_Some (table w !! key))), w')
        ∧ table w' = delete key (table w)
        ∧ clock w' = clock w ∧ available w'.
Proof.
  intros Hav. unfold deleteIngredient, mbind, Async_bind, bind.
  destruct (table_get_available key w Hav) as (w1 & -> & Ht1 & Hc1 & Hav1).
  destruct (table w !! key) as [existing|] eqn:Hkey.
  - destruct (table_delete_available key w1 Hav1) as (w2 & -> & Ht2 & Hc2 & Hav2).
    exists w2. rewrite Ht2, Ht1, Hc2, Hc1. by rewrite bool_decide_true.
  - exists w1. rewrite Ht1, Hc1, delete_id by done.
    by rewrite bool_decide_false by (by intros [? ?]).
Qed.

(** X9. On a store that performs its requests, with an identifier that is
    not yet a key: [createIngredient] writes one new row and returns it. The
    row has the new identifier, the trimmed name and unit, the stock and
    the shelf life of the form and no purchase date; the other rows are as
    before; [getIngredientById] finds the row and [getIngredientCount] is
    one more than before. *)
Theorem createIngredient_inserts (data : IngredientFormData.t) (w : World) :
  available w → table w !! uuids w (uuidsIssued w) = None →
  ∃ w', createIngredient data w
        = (Fulfilled (created (uuids w (uuidsIssued w)) data), w')
    ∧ (∀ key, key ≠ uuids w (uuidsIssued w) → table w' !! key = table w !! key)
    ∧ (getIngredientById (uuids w (uuidsIssued w)) w').1
      = Fulfilled (Some (created (uuids w (uuidsIssued w)) data))
    ∧ ∃ n, (getIngredientCount w).1 = Fulfilled n
           ∧ (getIngredientCount w').1 = Fulfilled (n + 1).
Proof.
  intros Hav Hnew.
  destruct (createIngredient_available data w Hav Hnew)
    as (w' & Hcreate & Ht & _ & Hav').
  exists w'. split; [exact Hcreate|]. split; [|split].
  - intros key Hne. by rewrite Ht, lookup_insert_ne.
  - unfold getIngredientById.
    destruct (table_get_available (uuids w (uuidsIssued w)) w' Hav')
      as (w1 & -> & _). cbn. by rewrite Ht, lookup_insert_eq.
  - unfold getIngredientCount.
    destruct (table_count_available w Hav) as (w1 & -> & _).
    destruct (table_count_available w' Hav') as (w2 & -> & _).
    eexists. split; [reflexivity|]. cbn. f_equal.
    rewrite Ht, map_size_insert_None by done. lia.
Qed.

Lemma createIngredient_inserts_witness :
  available Sample.store
  ∧ ∃ w', createIngredient Sample.eggs Sample.store
          = (Fulfilled (created "000000000000" Sample.eggs), w')
      ∧ (∀ key, key ≠ "000000000000"%string →
                table w' !! key = table Sample.store !! key)
      ∧ (getIngredientById "000000000000" w').1
        = Fulfilled (Some (created "000000000000" Sample.eggs))
      ∧ ∃ n, (getIngredientCount Sample.store).1 = Fulfilled n
             ∧ (getIngredientCount w').1 = Fulfilled (n + 1).
Proof.
  split; [constructor|].
  apply (createIngredient_inserts Sample.eggs Sample.store);
    [constructor | reflexivity].
Defined.

(** X10. [createIngredient] never overwrites a row: when the identifier it
    draws is already a key, the call is rejected and the table is as
    before, whatever the store does. *)
Theorem createIngredient_never_overwrites (data : IngredientFormData.t)
    (w : World) (existing : Ingredient) :
  table w !! uuids w (uuidsIssued w) = Some existing →
  ∃ e w', createIngredient data w = (Rejected e, w') ∧ table w' = table w.
Proof.
  intros Hkey. unfold createIngredient, uuidv4, table_add, mbind, Async_bind, bind.
  match goal with
  | |- context [request ?r ?p ?w0] =>
      destruct (request_cases r p w0)
        as [(e & w1 & -> & Ht1) | (w1 & -> & Ht1 & _)]
  end.
  - by eexists _, _.
  - cbn in Ht1. cbn. rewrite Ht1, Hkey. by eexists _, _.
Qed.

Lemma createIngredient_never_overwrites_witness :
  table (set_table {[ "000000000000"%string := Sample.flour ]} Sample.store)
    !! "000000000000"%string = Some Sample.flour
  ∧ ∃ e w',
      createIngredient Sample.eggs
        (set_table {[ "000000000000"%string := Sample.flour ]} Sample.store)
      = (Rejected e, w')
      ∧ table w'
        = table (set_table {[ "000000000000"%string := Sample.flour ]}
                   Sample.store).
Proof.
  split; [reflexivity|].
  apply (createIngredient_never_overwrites Sample.eggs
           (set_table {[ "000000000000"%string := Sample.flour ]} Sample.store)
           Sample.flour).
  reflexivity.
Defined.

(** X11. On a store that performs its requests, [deleteIngredient] answers
    whether the row existed and leaves the table without it, the other rows
    untouched; after it [getIngredientById] finds nothing under that
    identifier and a second [deleteIngredient] answers false. *)
Theorem deleteIngredient_removes (key : string) (w : World) :
  available w →
  ∃ w', deleteIngredient key w
        = (Fulfilled (bool_decide (is_Some (table w !! key))), w')
    ∧ table w' = delete key (table w)
    ∧ (getIngredientById key w').1 = Fulfilled None
    ∧ (deleteIngredient key w').1 = Fulfilled false.
Proof.
  intros Hav.
  destruct (deleteIngredient_available key w Hav) as (w' & Hdel & Ht & _ & Hav').
  exists w'. split; [exact Hdel|]. split; [exact Ht|]. split.
  - unfold getIngredientById.
    destruct (table_get_available key w' Hav') as (w1 & -> & _).
    cbn. by rewrite Ht, lookup_delete_eq.
  - destruct (deleteIngredient_available key w' Hav') as (w1 & -> & _).
    cbn. rewrite Ht, lookup_delete_eq.
    by rewrite bool_decide_false by (by intros [? ?]).
Qed.

Lemma deleteIngredient_removes_witness :
  available Sample.store
  ∧ ∃ w', deleteIngredient "milk" Sample.store = (Fulfilled true, w')
      ∧ table w' = delete "milk"%string (table Sample.store)
      ∧ (getIngredientById "milk" w').1 = Fulfilled None
      ∧ (deleteIngredient "milk" w').1 = Fulfilled false.
Proof.
  split; [constructor|].
  apply (deleteIngredient_removes "milk" Sample.store). constructor.
Defined.

(** X12. Creating a row and deleting it again gives back the table: on a
    store that performs its requests and an identifier that is not yet a
    key, [deleteIngredient] on the row [createIngredient] returned answers
    true and the table is the one before the creation. *)
Theorem createIngredient_deleteIngredient (data : IngredientFormData.t)
    (w : World) :
  available w → table w !! uuids w (uuidsIssued w) = None →
  ∃ ing w1 w2,
    createIngredient data w = (Fulfilled ing, w1)
    ∧ deleteIngredient (id ing) w1 = (Fulfilled true, w2)
    ∧ table w2 = table w.
Proof.
  intros Hav Hnew.
  destruct (createIngredient_available data w Hav Hnew)
    as (w1 & Hcreate & Ht1 & _ & Hav1).
  destruct (deleteIngredient_available (uuids w (uuidsIssued w)) w1 Hav1)
    as (w2 & Hdel & Ht2 & _).
  exists (created (uuids w (uuidsIssued w)) data), w1, w2.
  split; [exact Hcreate|]. cbn [id created]. split.
  - rewrite Hdel, Ht1, lookup_insert_eq.
    by rewrite bool_decide_true by (by eexists).
  - by rewrite Ht2, Ht1, delete_insert_eq, delete_id.
Qed.

Lemma createIngredient_deleteIngredient_witness :
  available Sample.store
  ∧ ∃ ing w1 w2,
      createIngredient Sample.eggs Sample.store = (Fulfilled ing, w1)
      ∧ deleteIngredient (id ing) w1 = (Fulfilled true, w2)
      ∧ table w2 = table Sample.store.
Proof.
  split; [constructor|].
  apply (createIngredient_deleteIngredient Sample.eggs Sample.store);
    [constructor | reflexivity].
Defined.

(** ** Searching by name *)

Lemma toArray_elem (m : gmap string Ingredient) (x : Ingredient) :
  x ∈ map snd (merge_sort key_le (map_to_list m)) ↔ ∃ k, m !! k = Some x.
Proof.
  change (map snd) with (fmap (M := list) (@snd string Ingredient)).
  rewrite merge_sort_Permutation, list_elem_of_fmap. split.
  - intros ([k y] & -> & Hin). apply elem_of_map_to_list in Hin. by exists k.
  - intros (k & Hk). exists (k, x). split; [done|]. by apply elem_of_map_to_list.
Qed.

Lemma List_filter_elem {A} (f : A → bool) (l : list A) (x : A) :
  x ∈ List.filter f l ↔ x ∈ l ∧ f x = true.
Proof. rewrite !list_elem_of_In. apply filter_In. Qed.

Lemma includes_empty (s : string) : includes s EmptyString = true.
Proof. by destruct s. Qed.

(** X13. When [searchIngredientsByName] fulfils, it returns exactly the
    rows of the table whose name, in lower case, contains the query in
    lower case and trimmed; a query that normalises to the empty string is
    contained in every name, so every row is returned. The table is left
    as it was. *)
Theorem searchIngredientsByName_results (query : string) (w w' : World)
    (res : list Ingredient) :
  searchIngredientsByName query w = (Fulfilled res, w') →
  table w' = table w
  ∧ (∀ ing, ing ∈ res
            ↔ (∃ k, table w !! k = Some ing)
              ∧ includes (toLowerCase (name ing)) (trim (toLowerCase query)) = true)
  ∧ (trim (toLowerCase query) = EmptyString →
     ∀ k ing, table w !! k = Some ing → ing ∈ res).
Proof.
  intros Hsearch.
  assert (table w' = table w
          ∧ ∀ ing, ing ∈ res
                   ↔ (∃ k, table w !! k = Some ing)
                     ∧ includes (toLowerCase (name ing))
                         (trim (toLowerCase query)) = true) as [Ht Hres].
  { unfold searchIngredientsByName, getAllIngredients, table_toArray in Hsearch.
    unfold mbind, Async_bind, bind in Hsearch.
    destruct (decide (trim (toLowerCase query) = EmptyString)) as [Hq|Hq];
      match type of Hsearch with
      | context [scan ?p w] =>
          destruct (scan_cases p w) as [(e & w1 & Hs & Ht1) | (w1 & Hs & Ht1 & _)];
            rewrite Hs in Hsearch; [done|]
      end;
      cbn in Hsearch; injection Hsearch as Hr Hw; subst res w'; (split; [done|]); intros ing.
    - rewrite Ht1, toArray_elem, Hq, includes_empty.
      split; [by intros H | by intros [H _]].
    - by rewrite List_filter_elem, Ht1, toArray_elem. }
  split; [done|]. split; [done|].
  intros Hq k ing Hk. apply Hres. rewrite Hq, includes_empty. eauto.
Qed.

Lemma searchIngredientsByName_results_witness :
  searchIngredientsByName " MILK" Sample.store
  = (Fulfilled [Sample.milk], (searchIngredientsByName " MILK" Sample.store).2)
  ∧ ∀ ing, ing ∈ [Sample.milk]
           ↔ (∃ k, table Sample.store !! k = Some ing)
             ∧ includes (toLowerCase (name ing)) (trim (toLowerCase " MILK")) = true.
Proof.
  assert (searchIngredientsByName " MILK" Sample.store
          = (Fulfilled [Sample.milk],
             (searchIngredientsByName " MILK" Sample.store).2)) as Hs.
  { vm_compute. reflexivity. }
  split; [exact Hs|].
  apply (searchIngredientsByName_results " MILK" Sample.store _ _ Hs).
Defined.

(** ** Names in lower case and trimmed *)

Lemma isWhiteSpace_toLowerCase (c : ascii) :
  isWhiteSpace (toLowerCase_unit c) = isWhiteSpace c.
Proof. by destruct c as [[] [] [] [] [] [] [] []]. Qed.

Lemma toLowerCase_empty (s : string) :
  toLowerCase s = EmptyString ↔ s = EmptyString.
Proof. by destruct s. Qed.

Lemma toLowerCase_trimStart (s : string) :
  toLowerCase (trimStart s) = trimStart (toLowerCase s).
Proof.
  induction s as [|c s IH]; [done|]. cbn [trimStart toLowerCase].
  rewrite isWhiteSpace_toLowerCase. by destruct (isWhiteSpace c).
Qed.

Lemma toLowerCase_trimEnd (s : string) :
  toLowerCase (trimEnd s) = trimEnd (toLowerCase s).
Proof.
  induction s as [|c s IH]; [done|]. cbn [trimEnd toLowerCase].
  rewrite <- IH, isWhiteSpace_toLowerCase.
  destruct (trimEnd s) as [|c' s']; cbn [toLowerCase]; [|done].
  by destruct (isWhiteSpace c).
Qed.

Lemma toLowerCase_trim (s : string) :
  toLowerCase (trim s) = trim (toLowerCase s).
Proof. unfold trim. by rewrite toLowerCase_trimEnd, toLowerCase_trimStart. Qed.

Lemma table_toArray_available (w : World) :
  available w →
  ∃ w1, table_toArray w
        = (Fulfilled (map snd (merge_sort key_le (map_to_list (table w)))), w1)
        ∧ table w1 = table w ∧ available w1.
Proof.
  intros Hav. unfold table_toArray.
  match goal with
  | |- context [scan ?p w] =>
      destruct (scan_available p w Hav) as (w0 & -> & Ht & _ & Hav0)
  end.
  cbn beta. exists w0. by rewrite Ht.
Qed.

Lemma ingredientNameExists_available (name_ : string) (excludeId : option string)
    (w : World) :
  available w →
  ∃ w1, ingredientNameExists name_ excludeId w
        = (Fulfilled
             (existsb
                (λ ing, bool_decide (toLowerCase (name ing)
                                     = trim (toLowerCase name_))
                        && negb (bool_decide (Some (id ing) = excludeId)))
                (map snd (merge_sort key_le (map_to_list (table w))))), w1).
Proof.
  intros Hav. unfold ingredientNameExists, mbind, Async_bind, bind.
  destruct (table_toArray_available w Hav) as (w1 & -> & _). by eexists.
Qed.

(** X14. On a store that performs its requests, once a form has been
    saved with [createIngredient] its name is taken: [ingredientNameExists]
    answers true for the name as typed, whatever its case and the white
    space around it. When no other row bears that name, excluding the new
    row's identifier makes the answer false. *)
Theorem ingredientNameExists_created (data : IngredientFormData.t) (w : World) :
  available w → table w !! uuids w (uuidsIssued w) = None →
  ∃ ing w',
    createIngredient data w = (Fulfilled ing, w')
    ∧ (∀ typed,
         toLowerCase (trim typed)
         = toLowerCase (trim (IngredientFormData.name data)) →
         (ingredientNameExists typed None w').1 = Fulfilled true)
    ∧ ((∀ k other, table w !! k = Some other →
                   toLowerCase (name other)
                   ≠ toLowerCase (trim (IngredientFormData.name data))) →
       (ingredientNameExists (IngredientFormData.name data) (Some (id ing)) w').1
       = Fulfilled false).
Proof.
  intros Hav Hnew.
  destruct (createIngredient_available data w Hav Hnew)
    as (w' & Hcreate & Ht & _ & Hav').
  exists (created (uuids w (uuidsIssued w)) data), w'.
  split; [exact Hcreate|]. split.
  - intros typed Htyped.
    destruct (ingredientNameExists_available typed None w' Hav') as (w1 & ->).
    cbn [fst]. f_equal. apply existsb_exists.
    exists (created (uuids w (uuidsIssued w)) data). split.
    + apply list_elem_of_In, toArray_elem. exists (uuids w (uuidsIssued w)).
      by rewrite Ht, lookup_insert_eq.
    + cbn [name id created]. rewrite <- toLowerCase_trim, Htyped.
      by rewrite bool_decide_true.
  - intros Hothers. cbn [id created].
    destruct (ingredientNameExists_available (IngredientFormData.name data)
                (Some (uuids w (uuidsIssued w))) w' Hav') as (w1 & ->).
    cbn [fst id created]. f_equal.
    apply not_true_is_false. intros Hex. apply existsb_exists in Hex
      as (x & Hx & Hmatch).
    apply list_elem_of_In, toArray_elem in Hx as (k & Hk).
    apply andb_true_iff in Hmatch as [Hname Hid].
    apply bool_decide_eq_true in Hname. apply negb_true_iff in Hid.
    apply bool_decide_eq_false in Hid.
    rewrite Ht in Hk. destruct (decide (k = uuids w (uuidsIssued w))) as [->|Hne].
    + rewrite lookup_insert_eq in Hk. injection Hk as <-. by apply Hid.
    + rewrite lookup_insert_ne in Hk by done.
      apply (Hothers k x Hk). by rewrite toLowerCase_trim.
Qed.

Lemma ingredientNameExists_created_witness :
  available Sample.store
  ∧ ∃ ing w',
      createIngredient Sample.eggs Sample.store = (Fulfilled ing, w')
      ∧ (ingredientNameExists "EGGS  " None w').1 = Fulfilled true.
Proof.
  split; [constructor|].
  destruct (ingredientNameExists_created Sample.eggs Sample.store)
    as (ing & w' & Hcreate & Htaken & _); [constructor | reflexivity |].
  exists ing, w'. split; [exact Hcreate|].
  apply Htaken. reflexivity.
Defined.

(** ** Reads *)

(** X15. No read changes the table, whatever the store does and however
    the call ends: [getAllIngredients], [getIngredientById],
    [searchIngredientsByName], [getIngredientCount], [ingredientNameExists]
    and [getDbStats] leave every row as it was. *)
Theorem reads_leave_table (w : World) :
  table (getAllIngredients w).2 = table w
  ∧ (∀ key, table (getIngredientById key w).2 = table w)
  ∧ (∀ query, table (searchIngredientsByName query w).2 = table w)
  ∧ table (getIngredientCount w).2 = table w
  ∧ (∀ name_ excludeId, table (ingredientNameExists name_ excludeId w).2 = table w)
  ∧ table (getDbStats w).2 = table w.
Proof.
  assert (table (table_toArray w).2 = table w) as HtoArray.
  { unfold table_toArray.
    match goal with
    | |- context [scan ?p w] =>
        destruct (scan_cases p w) as [(e & w1 & -> & Ht) | (w1 & -> & Ht & _)]
    end; done. }
  assert (table (table_count w).2 = table w) as Hcount.
  { unfold table_count.
    match goal with
    | |- context [scan ?p w] =>
        destruct (scan_cases p w) as [(e & w1 & -> & Ht) | (w1 & -> & Ht & _)]
    end; done. }
  split; [done|]. split; [|split; [|split; [done|split]]].
  - intros key. unfold getIngredientById, table_get.
    match goal with
    | |- context [request ?r ?p w] =>
        destruct (request_cases r p w) as [(e & w1 & -> & Ht) | (w1 & -> & Ht & _)]
    end; done.
  - intros query. unfold searchIngredientsByName, getAllIngredients.
    destruct (decide _); [done|]. unfold mbind, Async_bind, bind.
    by destruct (table_toArray w) as [[l|e] w1].
  - intros name_ excludeId. unfold ingredientNameExists, mbind, Async_bind, bind.
    by destruct (table_toArray w) as [[l|e] w1].
  - unfold getDbStats, mbind, Async_bind, bind.
    by destruct (table_count w) as [[l|e] w1].
Qed.

(** ** Form validation *)

Lemma validateIngredientForm_valid_bool (data : IngredientFormData.t) :
  valid (validateIngredientForm data)
  = negb (bool_decide (IngredientFormData.name data = EmptyString)
          || bool_decide (trim (IngredientFormData.name data) = EmptyString))
    && negb (100 <? String.length (IngredientFormData.name data))%nat
    && negb (bool_decide (IngredientFormData.unit data = EmptyString)
             || bool_decide (trim (IngredientFormData.unit data) = EmptyString))
    && negb (20 <? String.length (IngredientFormData.unit data))%nat
    && negb (Num.ltb (IngredientFormData.stockQty data) Num.zero)
    && negb (Num.falsy (IngredientFormData.shelfLifeDays data)
             || Num.leb (IngredientFormData.shelfLifeDays data) Num.zero)
    && negb (Num.gtb (IngredientFormData.shelfLifeDays data) (Num.of_Z 3650)).
Proof.
  unfold validateIngredientForm. cbn [valid].
  generalize (bool_decide (IngredientFormData.name data = EmptyString)
              || bool_decide (trim (IngredientFormData.name data) = EmptyString)),
             (100 <? String.length (IngredientFormData.name data))%nat,
             (bool_decide (IngredientFormData.unit data = EmptyString)
              || bool_decide (trim (IngredientFormData.unit data) = EmptyString)),
             (20 <? String.length (IngredientFormData.unit data))%nat,
             (Num.ltb (IngredientFormData.stockQty data) Num.zero),
             (Num.falsy (IngredientFormData.shelfLifeDays data)
              || Num.leb (IngredientFormData.shelfLifeDays data) Num.zero),
             (Num.gtb (IngredientFormData.shelfLifeDays data) (Num.of_Z 3650)).
  intros [] [] [] [] [] [] []; reflexivity.
Qed.

Lemma Num_ltb_zero_false (x : num) :
  Num.ltb x Num.zero = false
  ↔ x = Num.NaN ∨ x = Num.PInf ∨ ∃ q, x = Num.Fin q ∧ (0 <= q)%Q.
Proof.
  destruct x as [| | |q]; cbn.
  - naive_solver.
  - naive_solver.
  - split; [done|]. intros [?|[?|(? & ? & _)]]; done.
  - unfold Num.Qltb. rewrite negb_false_iff, Qle_bool_iff. split.
    + intros H. right. right. by exists q.
    + intros [?|[?|(q' & [= <-] & H)]]; done.
Qed.

Lemma shelfLife_accepted (x : num) :
  Num.falsy x || Num.leb x Num.zero = false
  ∧ Num.gtb x (Num.of_Z 3650) = false
  ↔ ∃ q, x = Num.Fin q ∧ (0 < q)%Q ∧ (q <= 3650)%Q.
Proof.
  destruct x as [| | |q]; cbn.
  - split; [by intros [? _] | by intros (? & ? & _)].
  - split; [by intros [_ ?] | by intros (? & ? & _)].
  - split; [by intros [? _] | by intros (? & ? & _)].
  - unfold Num.Qltb. rewrite orb_false_iff, negb_false_iff, Qle_bool_iff.
    split.
    + intros [[Hne Hle] Hmax]. exists q. split; [done|].
      apply Qle_bool_false in Hle. done.
    + intros (q' & [= <-] & Hpos & Hmax). split; [split|done].
      * destruct (Qeq_bool q 0) eqn:E; [|done].
        apply Qeq_bool_iff in E. rewrite E in Hpos. by apply Qlt_irrefl in Hpos.
      * destruct (Qle_bool q (inject_Z 0)) eqn:E; [|done].
        apply Qle_bool_iff in E. exfalso. by apply (Qlt_not_le _ _ Hpos).
Qed.

Lemma trim_empty_string : trim EmptyString = EmptyString.
Proof. reflexivity. Qed.

Lemma validateIngredientForm_valid_elim (data : IngredientFormData.t) :
  valid (validateIngredientForm data) = true → acceptable data.
Proof.
  rewrite validateIngredientForm_valid_bool.
  rewrite !andb_true_iff, !negb_true_iff.
  rewrite (Num_ltb_zero_false (IngredientFormData.stockQty data)).
  intros ((((((Hn & Hnl) & Hu) & Hul) & Hs) & Hf) & Hg).
  apply orb_false_iff in Hn as [_ Hn]. apply bool_decide_eq_false in Hn.
  apply orb_false_iff in Hu as [_ Hu]. apply bool_decide_eq_false in Hu.
  apply Nat.ltb_ge in Hnl, Hul.
  repeat (split; [done|]). by apply shelfLife_accepted.
Qed.

Lemma validateIngredientForm_valid_intro (data : IngredientFormData.t) :
  acceptable data → valid (validateIngredientForm data) = true.
Proof.
  rewrite validateIngredientForm_valid_bool.
  rewrite !andb_true_iff, !negb_true_iff.
  rewrite (Num_ltb_zero_false (IngredientFormData.stockQty data)).
  intros (Hn & Hnl & Hu & Hul & Hs & Hsh).
  apply shelfLife_accepted in Hsh as [Hf Hg].
  repeat split; try done.
  - apply orb_false_iff. split; apply bool_decide_eq_false; [|done].
    intros E. apply Hn. by rewrite E.
  - by apply Nat.ltb_ge.
  - apply orb_false_iff. split; apply bool_decide_eq_false; [|done].
    intros E. apply Hu. by rewrite E.
  - by apply Nat.ltb_ge.
Qed.

(** X16. [validateIngredientForm] accepts a form exactly when its name and
    its unit are not blank and have at most 100 and 20 characters as typed,
    its stock is not below zero, and its shelf life is a finite number above
    0 and at most 3650. The stock test lets [NaN] and [+Infinity] through;
    the shelf life need not be whole. *)
Theorem validateIngredientForm_accepts (data : IngredientFormData.t) :
  valid (validateIngredientForm data) = true
  ↔ trim (IngredientFormData.name data) ≠ EmptyString
    ∧ (String.length (IngredientFormData.name data) <= 100)%nat
    ∧ trim (IngredientFormData.unit data) ≠ EmptyString
    ∧ (String.length (IngredientFormData.unit data) <= 20)%nat
    ∧ (IngredientFormData.stockQty data = Num.NaN
       ∨ IngredientFormData.stockQty data = Num.PInf
       ∨ ∃ q, IngredientFormData.stockQty data = Num.Fin q ∧ (0 <= q)%Q)
    ∧ ∃ q, IngredientFormData.shelfLifeDays data = Num.Fin q
           ∧ (0 < q)%Q ∧ (q <= 3650)%Q.
Proof.
  split.
  - apply validateIngredientForm_valid_elim.
  - apply validateIngredientForm_valid_intro.
Qed.

(** ** The invariant of the table *)

Lemma keyed_by_id_alter (c : PartialIngredient.t) (key : string)
    (t : gmap string Ingredient) :
  keyed_by_id t → keyed_by_id (alter (applyChanges c) key t).
Proof.
  intros Hinv k ing. destruct (decide (k = key)) as [->|Hne].
  - rewrite lookup_alter_eq. destruct (t !! key) as [old|] eqn:Hold; [|done].
    intros [= <-]. cbn. by apply Hinv.
  - rewrite lookup_alter_ne by done. apply Hinv.
Qed.

Lemma keyed_by_id_insert (item : Ingredient) (t : gmap string Ingredient) :
  keyed_by_id t → keyed_by_id (<[id item := item]> t).
Proof.
  intros Hinv k ing. destruct (decide (k = id item)) as [->|Hne].
  - rewrite lookup_insert_eq. by intros [= <-].
  - rewrite lookup_insert_ne by done. apply Hinv.
Qed.

Lemma keyed_by_id_delete (key : string) (t : gmap string Ingredient) :
  keyed_by_id t → keyed_by_id (delete key t).
Proof.
  intros Hinv k ing Hk. apply lookup_delete_Some in Hk as [_ Hk]. by apply Hinv.
Qed.

Lemma table_update_table (key : string) (c : PartialIngredient.t) (w : World) :
  table (table_update key c w).2 = table w
  ∨ table (table_update key c w).2 = alter (applyChanges c) key (table w).
Proof.
  unfold table_update.
  match goal with
  | |- context [request ?r ?p w] =>
      destruct (request_cases r p w) as [(e & w1 & -> & Ht) | (w1 & -> & Ht & _)]
  end; [by left|]. right. cbn. by rewrite Ht.
Qed.

Lemma table_get_table (key : string) (w : World) :
  table (table_get key w).2 = table w.
Proof.
  unfold table_get.
  match goal with
  | |- context [request ?r ?p w] =>
      destruct (request_cases r p w) as [(e & w1 & -> & Ht) | (w1 & -> & Ht & _)]
  end; done.
Qed.

(** X17. Every row stays under its own identifier: if each row of the
    table is stored under the [id] it carries, the same holds after
    [createIngredient], [updateIngredient], [deleteIngredient],
    [buyIngredient] and [clearAllData], whatever the store does and however
    the call ends. *)
Theorem actions_keep_rows_keyed_by_id (rt : Runtime) (w : World) :
  keyed_by_id (table w) →
  (∀ data, keyed_by_id (table (createIngredient data w).2))
  ∧ (∀ key data, keyed_by_id (table (updateIngredient key data w).2))
  ∧ (∀ key, keyed_by_id (table (deleteIngredient key w).2))
  ∧ (∀ input, keyed_by_id (table (buyIngredient rt input w).2))
  ∧ keyed_by_id (table (clearAllData w).2).
Proof.
  intros Hinv. split; [|split; [|split; [|split]]].
  - intros data. unfold createIngredient, uuidv4, table_add, mbind, Async_bind, bind.
    match goal with
    | |- context [request ?r ?p ?w0] =>
        destruct (request_cases r p w0) as [(e & w1 & -> & Ht) | (w1 & -> & Ht & _)]
    end; cbn in Ht; cbn; [by rewrite Ht|].
    destruct (table w1 !! _); cbn; rewrite Ht; [done|].
    by apply (keyed_by_id_insert
                {| id := uuids w (uuidsIssued w);
                   name := trim (IngredientFormData.name data);
                   unit := trim (IngredientFormData.unit data);
                   stockQty := IngredientFormData.stockQty data;
                   shelfLifeDays := Some (IngredientFormData.shelfLifeDays data);
                   purchasedAt := None |}).
  - intros key data. unfold updateIngredient, mbind, Async_bind, bind.
    pose proof (table_get_table key w) as Hg.
    destruct (table_get key w) as [[[existing|]|e] w1]; cbn in Hg; cbn;
      try by rewrite Hg.
    match goal with
    | |- context [table_update key ?c w1] =>
        pose proof (table_update_table key c w1) as Hu;
        destruct (table_update key c w1) as [[[]|e] w2]
    end; cbn in Hu; cbn.
    + pose proof (table_get_table key w2) as Hg2.
      destruct (table_get key w2) as [[updated|e] w3]; cbn in Hg2; cbn;
        rewrite Hg2; destruct Hu as [->| ->]; rewrite Hg;
        by try apply keyed_by_id_alter.
    + destruct Hu as [->| ->]; rewrite Hg; by try apply keyed_by_id_alter.
  - intros key. unfold deleteIngredient, mbind, Async_bind, bind.
    pose proof (table_get_table key w) as Hg.
    destruct (table_get key w) as [[[existing|]|e] w1]; cbn in Hg; cbn;
      try by rewrite Hg.
    unfold table_delete.
    match goal with
    | |- context [request ?r ?p w1] =>
        destruct (request_cases r p w1) as [(e & w2 & -> & Ht) | (w2 & -> & Ht & _)]
    end; cbn; rewrite Ht, Hg; by try apply keyed_by_id_delete.
  - intros input.
    destruct (buyIngredient_outcome rt input w)
      as (r & w' & -> & [(m & _ & Ht) | (ing & Hkey & _ & Ht)]);
      cbn; rewrite Ht; [done|].
    rewrite <- (Hinv _ _ Hkey) at 1.
    by apply (keyed_by_id_insert (bought rt (clock w) (purchasedQty input) ing)).
  - unfold clearAllData, table_clear.
    match goal with
    | |- context [scan ?p w] =>
        destruct (scan_cases p w) as [(e & w1 & -> & Ht) | (w1 & -> & Ht & _)]
    end; cbn; [by rewrite Ht|]. intros k ing. by rewrite lookup_empty.
Qed.

Lemma actions_keep_rows_keyed_by_id_witness :
  keyed_by_id (table Sample.store)
  ∧ keyed_by_id (table (createIngredient Sample.eggs Sample.store).2).
Proof.
  assert (keyed_by_id (table Sample.store)) as Hinv.
  { intros k ing Hk. apply elem_of_list_to_map_2 in Hk.
    repeat (apply elem_of_cons in Hk as [[= -> ->]|Hk]; [reflexivity|]).
    by apply elem_of_nil in Hk. }
  split; [exact Hinv|].
  apply (actions_keep_rows_keyed_by_id Host.utc Sample.store Hinv).
Defined.

(** ** Purchases on a store that performs its requests *)






(** ** Updates and resets *)

(** X20. An update that names no field is a no-op: on a store that
    performs its requests, [updateIngredient] with an empty partial input
    leaves the table as it is, and returns the row when there is one under
    that identifier and null when there is none. *)
Theorem updateIngredient_nothing (key : string) (w : World) :
  available w →
  ∃ w', updateIngredient key
          {| PartialFormData.name := None;
             PartialFormData.unit := None;
             PartialFormData.stockQty := None;
             PartialFormData.shelfLifeDays := None |} w
        = (Fulfilled (table w !! key), w')
    ∧ table w' = table w.
Proof.
  intros Hav. unfold updateIngredient, mbind, Async_bind, bind.
  destruct (table_get_available key w Hav) as (w1 & -> & Ht1 & _ & Hav1).
  destruct (table w !! key) as [existing|] eqn:Hkey; [|by exists w1].
  cbn [fmap option_fmap option_map].
  match goal with
  | |- context [table_update key ?c w1] =>
      destruct (table_update_available key c w1 Hav1)
        as (w2 & -> & Ht2 & _ & Hav2)
  end.
  destruct (table_get_available key w2 Hav2) as (w3 & -> & Ht3 & _).
  assert (table w2 = table w) as Hsame.
  { rewrite Ht2, Ht1. apply map_eq. intros k.
    destruct (decide (k = key)) as [->|Hne].
    - rewrite lookup_alter_eq, Hkey. cbn. f_equal. by destruct existing.
    - by rewrite lookup_alter_ne. }
  exists w3. rewrite Ht3, Hsame. split; [|done]. unfold ret. by rewrite Hkey.
Qed.

Lemma updateIngredient_nothing_witness :
  available Sample.store
  ∧ ∃ w', updateIngredient "milk"
            {| PartialFormData.name := None;
               PartialFormData.unit := None;
               PartialFormData.stockQty := None;
               PartialFormData.shelfLifeDays := None |} Sample.store
          = (Fulfilled (table Sample.store !! "milk"%string), w')
      ∧ table w' = table Sample.store.
Proof.
  split; [constructor|].
  apply (updateIngredient_nothing "milk" Sample.store). constructor.
Defined.

(** X21. After [clearAllData] on a store that performs its requests the
    table is empty: [getDbStats] counts 0 rows, [getAllIngredients] returns
    the empty list, and a purchase of any ingredient fails with
    "Ingredient not found". *)
Theorem clearAllData_empties (rt : Runtime) (w : World) :
  available w →
  ∃ w', clearAllData w = (Fulfilled tt, w')
    ∧ table w' = ∅
    ∧ (getDbStats w').1 = Fulfilled 0
    ∧ (getAllIngredients w').1 = Fulfilled []
    ∧ ∀ key qty, validQuantity qty →
        (buyIngredient rt {| ingredientId := key; purchasedQty := qty |} w').1
        = Fulfilled (buyFailure "Ingredient not found").
Proof.
  intros Hav. unfold clearAllData, table_clear.
  match goal with
  | |- context [scan ?p w] =>
      destruct (scan_available p w Hav) as (w0 & -> & Ht & _ & Hav0)
  end.
  cbn beta. eexists. split; [reflexivity|].
  set (w' := set_table ∅ w0).
  assert (available w') as Hav' by done.
  assert (table w' = ∅) as Hempty by done.
  split; [done|]. split; [|split].
  - unfold getDbStats, mbind, Async_bind, bind.
    destruct (table_count_available w' Hav') as (w1 & -> & _).
    cbn [fst]. by rewrite Hempty.
  - unfold getAllIngredients.
    destruct (table_toArray_available w' Hav') as (w1 & -> & _).
    cbn [fst]. by rewrite Hempty.
  - intros key qty Hq. apply validQuantity_guards in Hq as [Hle Hfin].
    unfold buyIngredient. cbn [ingredientId purchasedQty].
    rewrite Hle, Hfin. cbn [negb].
    unfold try_catch, transaction, buyTransactionBody, mbind, Async_bind, bind.
    destruct (table_get_available key w' Hav') as (w1 & -> & _).
    by rewrite Hempty, lookup_empty.
Qed.

Lemma clearAllData_empties_witness :
  available Sample.store
  ∧ ∃ w', clearAllData Sample.store = (Fulfilled tt, w')
      ∧ table w' = ∅
      ∧ (getDbStats w').1 = Fulfilled 0
      ∧ (getAllIngredients w').1 = Fulfilled []
      ∧ ∀ key qty, validQuantity qty →
          (buyIngredient Host.utc {| ingredientId := key; purchasedQty := qty |} w').1
          = Fulfilled (buyFailure "Ingredient not found").
Proof.
  split; [constructor|].
  apply (clearAllData_empties Host.utc Sample.store). constructor.
Defined.

(** ** The default form *)

(** X22. The form [createDefaultIngredient] starts from is rejected for
    its name alone, and becomes acceptable as soon as a name that is not
    blank and has at most 100 characters is filled in: its unit, stock and
    shelf life pass validation as they are. *)
Theorem createDefaultIngredient_needs_name :
  errors (validateIngredientForm createDefaultIngredient)
  = {[ "name"%string := "Name is required"%string ]}
  ∧ ∀ typed : string,
      trim typed ≠ EmptyString → (String.length typed <= 100)%nat →
      valid (validateIngredientForm
               {| IngredientFormData.name := typed;
                  IngredientFormData.unit :=
                    IngredientFormData.unit createDefaultIngredient;
                  IngredientFormData.stockQty :=
                    IngredientFormData.stockQty createDefaultIngredient;
                  IngredientFormData.shelfLifeDays :=
                    IngredientFormData.shelfLifeDays createDefaultIngredient |})
      = true.
Proof.
  split; [reflexivity|].
  intros typed Hblank Hlen. apply validateIngredientForm_valid_intro.
  unfold acceptable. cbn.
  split; [done|]. split; [done|]. split; [done|]. split; [lia|]. split.
  - right. right. exists 0%Q. split; [reflexivity | done].
  - exists 7%Q. split; [reflexivity|]. split; reflexivity || done.
Qed.

(** ** The list the page sorts *)

Lemma enrichAllWithSpoilage_wellFormed (rt : Runtime) (raw : list Ingredient)
    (n : Z) :
  (∀ ing, ing ∈ raw →
          expiryDate (computeSpoilage rt ing (Some n)
                        DEFAULT_NEAR_EXPIRY_THRESHOLD_DAYS) ≠ Some None) →
  Forall daysWellFormed (enrichAllWithSpoilage rt raw (Some n)).
Proof.
  intros Hvalid. unfold enrichAllWithSpoilage.
  induction raw as [|ing raw IH]; cbn [map]; constructor.
  - apply enrichWithSpoilage_wellFormed. apply Hvalid. left.
  - apply IH. intros x Hx. apply Hvalid. by right.
Qed.

(** X23. What the page shows when sorting by expiry. For a valid reference
    instant and rows none of whose expiry dates falls outside the range of
    dates, [sortByExpiryUrgency (enrichAllWithSpoilage rows now)] lists each
    row once, in urgency order: never a later status before an earlier one,
    and within a status never more days left before fewer. *)
Theorem sorted_enriched_rows (rt : Runtime) (raw : list Ingredient) (n : Z) :
  (∀ ing, ing ∈ raw →
          expiryDate (computeSpoilage rt ing (Some n)
                        DEFAULT_NEAR_EXPIRY_THRESHOLD_DAYS) ≠ Some None) →
  map base (sortByExpiryUrgency (enrichAllWithSpoilage rt raw (Some n))) ≡ₚ raw
  ∧ ∀ (i j : nat) (a b : IngredientWithSpoilage),
      (i < j)%nat →
      sortByExpiryUrgency (enrichAllWithSpoilage rt raw (Some n)) !! i = Some a →
      sortByExpiryUrgency (enrichAllWithSpoilage rt raw (Some n)) !! j = Some b →
      urgency_le a b.
Proof.
  intros Hvalid. split.
  - unfold sortByExpiryUrgency. rewrite Array_sort_perm.
    unfold enrichAllWithSpoilage. rewrite map_map. cbn. by rewrite map_id.
  - intros i j a b Hij Hi Hj.
    eapply (StronglySorted_lookup urgency_le); [|exact Hij|exact Hi|exact Hj].
    by apply sortByExpiryUrgency_StronglySorted, enrichAllWithSpoilage_wellFormed.
Qed.

Lemma sorted_enriched_rows_witness :
  map base
    (sortByExpiryUrgency
       (enrichAllWithSpoilage Host.utc [Sample.flour; Sample.milk; Sample.yogurt]
          (Some (Sample.purchased + 4 * msPerDay))))
  ≡ₚ [Sample.flour; Sample.milk; Sample.yogurt].
Proof.
  apply (sorted_enriched_rows Host.utc [Sample.flour; Sample.milk; Sample.yogurt]
           (Sample.purchased + 4 * msPerDay)).
  intros ing Hin.
  repeat (apply elem_of_cons in Hin as [->|Hin]; [vm_compute; congruence|]).
  by apply elem_of_nil in Hin.
Defined.

(** ** Stock after a purchase *)



Lemma createDefaultIngredient_needs_name_witness :
  valid (validateIngredientForm
           {| IngredientFormData.name := "Eggs";
              IngredientFormData.unit := "pieces";
              IngredientFormData.stockQty := Num.of_Z 0;
              IngredientFormData.shelfLifeDays := Num.of_Z 7 |}) = true.
Proof.
  apply (proj2 createDefaultIngredient_needs_name "Eggs"%string).
  - discriminate.
  - cbn. lia.
Defined.
